(** * ASCEND linear-actuator control: frame codec, CRC and console loop

    A shallow embedding of [src/actuator.py] (and of the copy of
    [modbus_crc] in [src/test.py]).  Python integers are [Z], a [bytes]
    object is a list of integers in [0, 256), Python exceptions are an
    explicit [Raise] result, and the interactive part of the script runs in a
    state-and-exception monad over a record that holds the module-level
    variables, the scripted environment (console, serial line) and the trace
    of outputs. *)

From Stdlib Require Import ZArith List String Ascii Bool Lia.
Import ListNotations.

Open Scope Z_scope.

(* ================================================================== *)
(** ** Python built-ins used by the script *)
(* ================================================================== *)

Module Py.

(** The exception classes that the built-ins used here can raise, and the
    one that [client.write_registers] of pymodbus raises. *)
Inductive exn : Set :=
  | ValueError
  | OverflowError
  | TypeError
  | IndexError
  | EOFError
  | KeyboardInterrupt
  | ModbusIOException.

Definition exn_eqb (a b : exn) : bool :=
  match a, b with
  | ValueError, ValueError | OverflowError, OverflowError
  | TypeError, TypeError | IndexError, IndexError
  | EOFError, EOFError | KeyboardInterrupt, KeyboardInterrupt
  | ModbusIOException, ModbusIOException => true
  | _, _ => false
  end.

(** Result of a pure computation that may raise. *)
Inductive result (A : Type) : Type :=
  | Ok (a : A)
  | Raise (e : exn).
Arguments Ok {A} a.
Arguments Raise {A} e.

Definition rbind {A B} (r : result A) (k : A -> result B) : result B :=
  match r with
  | Ok a => k a
  | Raise e => Raise e
  end.

(** A [bytes] value; well-formed when every item is a byte. *)
Definition bytes := list Z.

Definition is_byte (b : Z) : Prop := 0 <= b < 256.

Definition well_formed (bs : bytes) : Prop := Forall is_byte bs.

(** A 16-bit unsigned value. *)
Definition word16 (c : Z) : Prop := 0 <= c < 65536.

Inductive byteorder : Set := big | little.

(** [n] base-256 digits of [u], least significant first. *)
Fixpoint le_digits (n : nat) (u : Z) : list Z :=
  match n with
  | O => []
  | S n' => u mod 256 :: le_digits n' (u / 256)
  end.

(** Value of base-256 digits, least significant first. *)
Fixpoint le_value (bs : list Z) : Z :=
  match bs with
  | [] => 0
  | b :: rest => b + 256 * le_value rest
  end.

Definition arrange (order : byteorder) (bs : list Z) : list Z :=
  match order with
  | little => bs
  | big => rev bs
  end.

(** [x.to_bytes(length, byteorder=order, signed=signed)].  A negative [x]
    with [signed=False], or an [x] that does not fit, raises OverflowError.
    (For [length = 0] CPython also accepts [-1] when signed; the script only
    uses lengths 2 and 4.) *)
Definition to_bytes (x : Z) (length : nat) (order : byteorder) (signed : bool)
  : result bytes :=
  let span := 2 ^ (8 * Z.of_nat length) in
  if signed then
    if (- span <=? 2 * x) && (2 * x <? span)
    then Ok (arrange order (le_digits length (x mod span)))
    else Raise OverflowError
  else if x <? 0 then Raise OverflowError
  else if x <? span then Ok (arrange order (le_digits length x))
  else Raise OverflowError.

(** [int.from_bytes(bs, byteorder=order, signed=signed)]. *)
Definition from_bytes (bs : bytes) (order : byteorder) (signed : bool) : Z :=
  let u := le_value (arrange order bs) in
  let span := 2 ^ (8 * Z.of_nat (List.length bs)) in
  if signed && (span <=? 2 * u) then u - span else u.

(** [bs[lo:hi]] for non-negative bounds; a slice never raises. *)
Definition slice (bs : bytes) (lo hi : nat) : bytes := skipn lo (firstn hi bs).

(** [bs[i]] for a non-negative index; IndexError out of range. *)
Definition index (bs : bytes) (i : nat) : result Z :=
  match nth_error bs i with
  | Some b => Ok b
  | None => Raise IndexError
  end.

(** *** Strings

    Text is modelled as a sequence of code points below 256 (Latin-1), one
    per character of a [string]. *)

Definition code (c : ascii) : Z := Z.of_N (N_of_ascii c).

(** White space for [str.strip]. *)
Definition is_space (c : ascii) : bool :=
  let n := code c in
  ((9 <=? n) && (n <=? 13)) || ((28 <=? n) && (n <=? 32))
  || (n =? 133) || (n =? 160).

(** White space ignored around the text by [float]. *)
Definition is_float_space (c : ascii) : bool :=
  let n := code c in
  ((9 <=? n) && (n <=? 13)) || (n =? 32) || (n =? 133) || (n =? 160).

(** Lower case of an ASCII letter. *)
Definition ascii_lower_char (c : ascii) : ascii :=
  let n := code c in
  if (65 <=? n) && (n <=? 90) then ascii_of_N (Z.to_N (n + 32)) else c.

(** Lower case of a letter, for [str.lower]. *)
Definition lower_char (c : ascii) : ascii :=
  let n := code c in
  if ((65 <=? n) && (n <=? 90))
     || ((192 <=? n) && (n <=? 222) && negb (n =? 215))
  then ascii_of_N (Z.to_N (n + 32))
  else c.

Fixpoint lstrip (space : ascii -> bool) (cs : list ascii) : list ascii :=
  match cs with
  | c :: rest => if space c then lstrip space rest else cs
  | [] => []
  end.

Definition strip_chars (space : ascii -> bool) (cs : list ascii) : list ascii :=
  rev (lstrip space (rev (lstrip space cs))).

(** [s.strip()] *)
Definition strip (s : string) : string :=
  string_of_list_ascii (strip_chars is_space (list_ascii_of_string s)).

(** [s.lower()] *)
Definition lower (s : string) : string :=
  string_of_list_ascii (map lower_char (list_ascii_of_string s)).

(** *** Floats

    A float is NaN, an infinity, or a finite binary64 value
    [(-1)^negative * mantissa * 2^exponent]. *)
Inductive pyfloat : Set :=
  | Nan
  | Infinity (negative : bool)
  | Finite (negative : bool) (mantissa exponent : Z).

Definition is_digit (c : ascii) : bool :=
  let n := code c in (48 <=? n) && (n <=? 57).

Definition digit_value (c : ascii) : Z := code c - 48.

(** The rest of a [digitpart]: digits, each optionally preceded by one
    underscore.  [acc] is the value read so far and [count] the number of
    digits read so far. *)
Fixpoint digitpart_rest (cs : list ascii) (acc count : Z)
  : Z * Z * list ascii :=
  match cs with
  | c :: rest =>
      if is_digit c then digitpart_rest rest (10 * acc + digit_value c) (count + 1)
      else if (code c =? 95) then
        match rest with
        | d :: rest' =>
            if is_digit d
            then digitpart_rest rest' (10 * acc + digit_value d) (count + 1)
            else (acc, count, cs)
        | [] => (acc, count, cs)
        end
      else (acc, count, cs)
  | [] => (acc, count, [])
  end.

(** [digitpart ::= digit (["_"] digit)*] *)
Definition digitpart (cs : list ascii) (acc count : Z)
  : option (Z * Z * list ascii) :=
  match cs with
  | c :: rest =>
      if is_digit c
      then Some (digitpart_rest rest (10 * acc + digit_value c) (count + 1))
      else None
  | [] => None
  end.

Definition is_dot (c : ascii) : bool := code c =? 46.
Definition is_exp_mark (c : ascii) : bool := (code c =? 101) || (code c =? 69).

(** [sign ::= "+" | "-"], optional: the flag tells whether it was "-". *)
Definition opt_sign (cs : list ascii) : bool * list ascii :=
  match cs with
  | c :: rest =>
      if code c =? 45 then (true, rest)
      else if code c =? 43 then (false, rest)
      else (false, cs)
  | [] => (false, [])
  end.

(** [number ::= [digitpart] "." digitpart | digitpart ["."]]: the digits read
    as one integer, the number of digits after the point, and the rest. *)
Definition number (cs : list ascii) : option (Z * Z * list ascii) :=
  match digitpart cs 0 0 with
  | Some (ip, _, rest) =>
      match rest with
      | c :: after =>
          if is_dot c then
            match digitpart after ip 0 with
            | Some r => Some r
            | None => Some (ip, 0, after)
            end
          else Some (ip, 0, rest)
      | [] => Some (ip, 0, [])
      end
  | None =>
      match cs with
      | c :: after => if is_dot c then digitpart after 0 0 else None
      | [] => None
      end
  end.

(** [exponent ::= ("e" | "E") [sign] digitpart], optional, up to the end of
    the text. [None] when the text does not end there. *)
Definition opt_exponent (cs : list ascii) : option Z :=
  match cs with
  | [] => Some 0
  | c :: rest =>
      if is_exp_mark c then
        let (neg, digits) := opt_sign rest in
        match digitpart digits 0 0 with
        | Some (e, _, []) => Some (if neg then - e else e)
        | _ => None
        end
      else None
  end.

(** [floor (log2 (p / q))] for positive [p] and [q]. *)
Definition floor_log2_ratio (p q : Z) : Z :=
  let k := Z.log2 p - Z.log2 q in
  let reached := if 0 <=? k then q * 2 ^ k <=? p else q <=? p * 2 ^ (- k) in
  if reached then k else k - 1.

(** [num / den] rounded to the nearest integer, ties to even. *)
Definition round_half_even (num den : Z) : Z :=
  let m := num / den in
  let r := num mod den in
  if (den <? 2 * r) || ((den =? 2 * r) && Z.odd m) then m + 1 else m.

(** The binary64 value nearest to [p / q] (for [0 <= p], [0 < q]) as mantissa
    and exponent: 53 bits of precision, exponents from -1074, ties to even;
    [None] when the rounded value overflows to infinity. *)
Definition nearest_binary64 (p q : Z) : option (Z * Z) :=
  if p =? 0 then Some (0, 0)
  else
    let e := Z.max (floor_log2_ratio p q - 52) (-1074) in
    let m := if 0 <=? e
             then round_half_even p (q * 2 ^ e)
             else round_half_even (p * 2 ^ (- e)) q in
    if 2 ^ 1024 <=? m * 2 ^ e then None else Some (m, e).

Definition decimal_to_float (negative : bool) (digits exp10 : Z) : pyfloat :=
  let p := digits * 10 ^ (Z.max exp10 0) in
  let q := 10 ^ (Z.max (- exp10) 0) in
  match nearest_binary64 p q with
  | Some (m, e) => Finite negative m e
  | None => Infinity negative
  end.

Definition chars (s : string) : list ascii := list_ascii_of_string s.

(** [float(s)] for a string [s]: white space around the text is ignored, and
    the text is a signed [floatnumber], "inf", "infinity" or "nan" in any
    letter case; anything else raises ValueError. *)
Definition float (s : string) : result pyfloat :=
  let cs := map ascii_lower_char (strip_chars is_float_space (chars s)) in
  let (neg, body) := opt_sign cs in
  if list_eq_dec ascii_dec body (chars "inf") then Ok (Infinity neg)
  else if list_eq_dec ascii_dec body (chars "infinity") then Ok (Infinity neg)
  else if list_eq_dec ascii_dec body (chars "nan") then Ok Nan
  else
    match number body with
    | Some (digits, frac, rest) =>
        match opt_exponent rest with
        | Some e => Ok (decimal_to_float neg digits (e - frac))
        | None => Raise ValueError
        end
    | None => Raise ValueError
    end.

(** [int(x)] for a float [x]: truncation towards zero; NaN raises ValueError
    and an infinity raises OverflowError. *)
Definition int (x : pyfloat) : result Z :=
  match x with
  | Nan => Raise ValueError
  | Infinity _ => Raise OverflowError
  | Finite negative m e =>
      let a := if 0 <=? e then m * 2 ^ e else m / 2 ^ (- e) in
      Ok (if negative then - a else a)
  end.

(** [a + b] where [a] is [None] or an int and [b] is an int. *)
Definition add (a : option Z) (b : Z) : result Z :=
  match a with
  | Some z => Ok (z + b)
  | None => Raise TypeError
  end.

End Py.

Import Py.

Notation "x <-? r ;; k" := (rbind r (fun x => k))
  (at level 61, r at next level, right associativity).

(* ================================================================== *)
(** ** actuator.py: checksum and frame construction *)
(* ================================================================== *)

Module Actuator.

(** One pass of the inner [for _ in range(8)] loop of [modbus_crc]. *)
Definition crc_round (crc : Z) : Z :=
  if negb (Z.land crc 1 =? 0)
  then Z.lxor (Z.shiftr crc 1) 0xA001
  else Z.shiftr crc 1.

(** Body of the outer loop: [crc ^= pos] and eight rounds. *)
Definition crc_update (crc pos : Z) : Z :=
  Nat.iter 8 crc_round (Z.lxor crc pos).

(** The accumulator of [modbus_crc] when the loop over [data] ends. *)
Definition crc_accumulate (data : list Z) : Z :=
  fold_left crc_update data 0xFFFF.

Definition modbus_crc (data : list Z) : result bytes :=
  to_bytes (crc_accumulate data) 2 little false.

Definition build_position_command (position_um : Z) : result bytes :=
  position_bytes <-? to_bytes position_um 4 big true ;;
  let request := [0x01; 0x64; 0x1E] ++ position_bytes in
  crc <-? modbus_crc request ;;
  Ok (request ++ crc).

(* ------------------------------------------------------------------ *)
(** *** The script's world: variables, environment and outputs *)

(** The six values decoded from a response frame. *)
Record telemetry : Set := Telemetry {
  position : Z;      (* um *)
  force : Z;         (* mN *)
  power : Z;         (* W *)
  temperature : Z;   (* degrees C *)
  voltage : Z;       (* mV *)
  errors : Z
}.

(** What the script prints, one constructor per [print] or prompt. *)
Inductive message : Set :=
  | InvalidLength                          (* "Invalid response length or no response received." *)
  | UnexpectedFunction (code : Z)          (* "Unexpected function code: 0x.." *)
  | TelemetryLine (t : telemetry)          (* "pos: .. | force: .. | ..." *)
  | Prompt                                 (* "Enter target position in um, 'z' to zero, or 'q' to quit: " *)
  | Zeroing                                (* "Zeroing at current position..." *)
  | ZeroSet (zero : option Z)              (* "Zero set at .. um" *)
  | ZeroFailed                             (* "Failed to read position to set zero." *)
  | InvalidInput                           (* "Invalid input. Enter a number, ..." *)
  | Moving (position_um target_um : Z)     (* "Moving to .. um from zero (absolute target: ..)" *)
  | StreamingStopped.                      (* "Streaming stopped." *)

Inductive output : Set :=
  | Print (m : message)
  | SocketWrite (frame : bytes)   (* client.socket.write(frame) *)
  | Sleep (milliseconds : Z)      (* time.sleep(..) *)
  | Close.                        (* client.close() *)

(** What the next [input()] brings: a line, or Ctrl+C while waiting. *)
Inductive console_event : Set :=
  | Line (s : string)
  | ConsoleInterrupt.

(** What the next [client.socket.read(..)] brings: the bytes that arrived
    before the time-out (possibly none), or Ctrl+C while waiting. *)
Inductive serial_event : Set :=
  | Received (bs : bytes)
  | SerialInterrupt.

(** The module-level variables the loop works on, the scripted environment
    and the outputs so far (newest first).  [zero_offset_um] is [None] when
    the variable holds Python's [None]; [target_um] is [None] before its
    first assignment.  [serial] scripts the successive reads of the serial
    line and [in_waiting] the successive values of
    [client.socket.in_waiting]; a failure of the serial transport itself is
    not part of the model. *)
Record world : Type := World {
  zero_offset_um : option Z;
  target_um : option Z;
  console : list console_event;
  serial : list serial_event;
  in_waiting : list Z;
  trace : list output
}.

(** How a piece of the script ends: it returns, it raises, or the bounded
    loop unrolling is used up while it is still running. *)
Inductive outcome (A : Type) : Type :=
  | Returns (a : A)
  | Raises (e : exn)
  | Running.
Arguments Returns {A} a.
Arguments Raises {A} e.
Arguments Running {A}.

Definition IO (A : Type) : Type := world -> outcome A * world.

Definition ret {A} (a : A) : IO A := fun w => (Returns a, w).

Definition bind {A B} (m : IO A) (k : A -> IO B) : IO B :=
  fun w =>
    match m w with
    | (Returns a, w') => k a w'
    | (Raises e, w') => (Raises e, w')
    | (Running, w') => (Running, w')
    end.

Notation "x <- m ;; k" := (bind m (fun x => k))
  (at level 61, m at next level, right associativity).
Notation "m ;; k" := (bind m (fun _ => k))
  (at level 61, right associativity).

Definition lift {A} (r : result A) : IO A :=
  fun w =>
    match r with
    | Ok a => (Returns a, w)
    | Raise e => (Raises e, w)
    end.

(** [try: body / except exc: handler] *)
Definition try_except {A} (body : IO A) (exc : exn) (handler : IO A) : IO A :=
  fun w =>
    match body w with
    | (Raises e, w') => if exn_eqb e exc then handler w' else (Raises e, w')
    | r => r
    end.

(** [try: body / finally: cleanup] *)
Definition try_finally {A} (body : IO A) (cleanup : IO unit) : IO A :=
  fun w =>
    match body w with
    | (Returns a, w') => (cleanup ;; ret a) w'
    | (Raises e, w') => (cleanup ;; lift (Raise e)) w'
    | (Running, w') => (Running, w')
    end.

(** The world after one more output. *)
Definition record (o : output) (w : world) : world :=
  World (zero_offset_um w) (target_um w) (console w) (serial w)
        (in_waiting w) (o :: trace w).

Definition emit (o : output) : IO unit := fun w => (Returns tt, record o w).

Definition print (m : message) : IO unit := emit (Print m).

Definition sleep (milliseconds : Z) : IO unit := emit (Sleep milliseconds).

Definition socket_write (frame : bytes) : IO unit := emit (SocketWrite frame).

Definition close : IO unit := emit Close.

Definition set_serial (rest : list serial_event) (w : world) : world :=
  World (zero_offset_um w) (target_um w) (console w) rest (in_waiting w)
        (trace w).

Definition set_in_waiting (rest : list Z) (w : world) : world :=
  World (zero_offset_um w) (target_um w) (console w) (serial w) rest
        (trace w).

Definition set_console (rest : list console_event) (w : world) : world :=
  World (zero_offset_um w) (target_um w) rest (serial w) (in_waiting w)
        (trace w).

Definition assign_zero_offset_um (v : option Z) (w : world) : world :=
  World v (target_um w) (console w) (serial w) (in_waiting w) (trace w).

Definition assign_target_um (v : Z) (w : world) : world :=
  World (zero_offset_um w) (Some v) (console w) (serial w) (in_waiting w)
        (trace w).

(** [client.socket.read(size)]: at most [size] bytes; nothing scripted is a
    time-out with no byte received. *)
Definition socket_read (size : nat) : IO bytes :=
  fun w =>
    match serial w with
    | Received bs :: rest => (Returns (firstn size bs), set_serial rest w)
    | SerialInterrupt :: rest => (Raises KeyboardInterrupt, set_serial rest w)
    | [] => (Returns [], w)
    end.

(** [client.socket.in_waiting]: nothing scripted is an empty buffer. *)
Definition socket_in_waiting : IO Z :=
  fun w =>
    match in_waiting w with
    | n :: rest => (Returns n, set_in_waiting rest w)
    | [] => (Returns 0, w)
    end.

(** [input(prompt)]: end of input raises EOFError. *)
Definition input (prompt : message) : IO string :=
  print prompt ;;
  fun w =>
    match console w with
    | Line s :: rest => (Returns s, set_console rest w)
    | ConsoleInterrupt :: rest => (Raises KeyboardInterrupt, set_console rest w)
    | [] => (Raises EOFError, w)
    end.

Definition get_zero_offset_um : IO (option Z) :=
  fun w => (Returns (zero_offset_um w), w).

Definition set_zero_offset_um (v : option Z) : IO unit :=
  fun w => (Returns tt, assign_zero_offset_um v w).

Definition set_target_um (v : Z) : IO unit :=
  fun w => (Returns tt, assign_target_um v w).

(** The frames written to the serial line, oldest first. *)
Fixpoint writes_of (t : list output) : list bytes :=
  match t with
  | SocketWrite f :: rest => writes_of rest ++ [f]
  | _ :: rest => writes_of rest
  | [] => []
  end.

Definition frames_written (w : world) : list bytes := writes_of (trace w).

(* ------------------------------------------------------------------ *)
(** *** Response decoding *)

Definition parse_motor_response_line (response : option bytes)
  : IO (option Z) :=
  match response with
  | None => print InvalidLength ;; ret None
  | Some response =>
      if negb (Nat.eqb (List.length response) 19)
      then print InvalidLength ;; ret None
      else
        code <- lift (index response 1) ;;
        if negb (code =? 0x64)
        then print (UnexpectedFunction code) ;; ret None
        else
          let pos := from_bytes (slice response 2 6) big true in
          let force := from_bytes (slice response 6 10) big true in
          let power := from_bytes (slice response 10 12) big false in
          temp <- lift (index response 12) ;;
          let voltage := from_bytes (slice response 13 15) big false in
          let errors := from_bytes (slice response 15 17) big false in
          print (TelemetryLine (Telemetry pos force power temp voltage errors)) ;;
          ret (Some pos)
  end.

(** The six values that the decoder reads from a 19-byte response (lines 32
    to 37), collected for the statements below. *)
Definition fields_of (bs : bytes) : telemetry :=
  Telemetry (from_bytes (slice bs 2 6) big true)
            (from_bytes (slice bs 6 10) big true)
            (from_bytes (slice bs 10 12) big false)
            (nth 12 bs 0)
            (from_bytes (slice bs 13 15) big false)
            (from_bytes (slice bs 15 17) big false).

(* ------------------------------------------------------------------ *)
(** *** The console loop (lines 85 to 127)

    The embedding starts where the script enters its [try] block: the serial
    line is open, motion is enabled and the gains are written. *)

Inductive loop_control : Set := Continue | Break.

(** The ['z'] branch. *)
Definition zero : IO unit :=
  print Zeroing ;;
  frame <- lift (build_position_command 0) ;;
  socket_write frame ;;
  sleep 100 ;;
  response <- socket_read 19 ;;
  if Nat.eqb (List.length response) 19
  then
    parsed <- parse_motor_response_line (Some response) ;;
    set_zero_offset_um parsed ;;
    print (ZeroSet parsed)
  else print ZeroFailed.

(** One pass of the inner [while True] loop. *)
Definition stream_once (full_request : bytes) : IO loop_control :=
  socket_write full_request ;;
  response <- socket_read 19 ;;
  parse_motor_response_line (Some response) ;;
  sleep 300 ;;
  pending <- socket_in_waiting ;;
  if 0 <? pending then ret Break else ret Continue.

(** The inner [while True] loop, unrolled at most [fuel] times. *)
Fixpoint streaming (fuel : nat) (full_request : bytes) : IO unit :=
  match fuel with
  | O => fun w => (Running, w)
  | S fuel' =>
      control <- stream_once full_request ;;
      match control with
      | Break => ret tt
      | Continue => streaming fuel' full_request
      end
  end.

(** [try: position_um = int(float(user_input)) / except ValueError: ...]:
    [None] stands for the [continue] of the handler. *)
Definition read_position (user_input : string) : IO (option Z) :=
  try_except
    (position_um <- lift (x <-? float user_input ;; int x) ;;
     ret (Some position_um))
    ValueError
    (print InvalidInput ;; ret None).

(** Lines 111 to 122: the move to a position relative to the zero. *)
Definition move_to (fuel : nat) (position_um : Z) : IO unit :=
  zero_offset <- get_zero_offset_um ;;
  target <- lift (add zero_offset position_um) ;;
  set_target_um target ;;
  full_request <- lift (build_position_command target) ;;
  print (Moving position_um target) ;;
  streaming fuel full_request.

(** The body of the outer [while True] loop for one line of input. *)
Definition handle_input (fuel : nat) (user_input : string) : IO loop_control :=
  if String.eqb user_input "q" then ret Break
  else if String.eqb user_input "z" then zero ;; ret Continue
  else
    parsed <- read_position user_input ;;
    match parsed with
    | None => ret Continue
    | Some position_um => move_to fuel position_um ;; ret Continue
    end.

Definition console_once (fuel : nat) : IO loop_control :=
  line <- input Prompt ;;
  handle_input fuel (lower (strip line)).

(** The outer [while True] loop, unrolled at most [fuel] times. *)
Fixpoint console_loop (fuel : nat) : IO unit :=
  match fuel with
  | O => fun w => (Running, w)
  | S fuel' =>
      control <- console_once fuel' ;;
      match control with
      | Break => ret tt
      | Continue => console_loop fuel'
      end
  end.

(** The [try / except KeyboardInterrupt / finally] around the loop. *)
Definition session (fuel : nat) : IO unit :=
  try_finally
    (try_except (console_loop fuel) KeyboardInterrupt (print StreamingStopped))
    close.

(** The world when the loop is entered: [zero_offset_um = 0] (line 76). *)
Definition initial_world (lines : list console_event)
  (rx : list serial_event) (pending : list Z) : world :=
  World (Some 0) None lines rx pending [].

End Actuator.

Import Actuator.

(* ================================================================== *)
(** ** The CRC of the specification, in the specification's words *)
(* ================================================================== *)

Module CRC16Engine.

(** XOR a byte into the low byte of the accumulator. *)
Definition xor_into_low_byte (acc byte : Z) : Z :=
  256 * (acc / 256) + Z.lxor (acc mod 256) byte.

(** One round: if the low bit is set, shift right and XOR with 0xA001;
    otherwise shift right only. *)
Definition round (acc : Z) : Z :=
  if Z.odd acc then Z.lxor (acc / 2) 0xA001 else acc / 2.

Fixpoint rounds (n : nat) (acc : Z) : Z :=
  match n with
  | O => acc
  | S n' => rounds n' (round acc)
  end.

Fixpoint compute_from (acc : Z) (data : list Z) : Z :=
  match data with
  | [] => acc
  | byte :: rest => compute_from (rounds 8 (xor_into_low_byte acc byte)) rest
  end.

(** The accumulator starts at 0xFFFF. *)
Definition compute (data : list Z) : Z := compute_from 0xFFFF data.

(** The 16-bit result, low byte first. *)
Definition serialize_le (crc : Z) : list Z := [crc mod 256; crc / 256].

End CRC16Engine.

(* ================================================================== *)
(** ** actuator.py outside the console loop, and test.py *)
(* ================================================================== *)

Module Script.

(** *** [struct.pack('<f', ..)] and [struct.unpack('>HH', ..)] *)

(** The binary32 value nearest to [p / q] (for [0 <= p], [0 < q]) as mantissa
    and exponent: 24 bits of precision, exponents from -149, ties to even;
    [None] when the rounded value overflows to infinity. *)
Definition nearest_binary32 (p q : Z) : option (Z * Z) :=
  if p =? 0 then Some (0, -149)
  else
    let e := Z.max (floor_log2_ratio p q - 23) (-149) in
    let m := if 0 <=? e
             then round_half_even p (q * 2 ^ e)
             else round_half_even (p * 2 ^ (- e)) q in
    if 2 ^ 128 <=? m * 2 ^ e then None else Some (m, e).

Definition sign_bit (negative : bool) : Z := if negative then 2 ^ 31 else 0.

(** The IEEE-754 single pattern that [struct.pack] stores for a float: the C
    conversion of a double to a float, OverflowError when a finite value is
    too large.  A mantissa [m] at exponent [e] has the biased exponent
    [e + 150] and the fraction [m - 2^23], or exponent field 0 and fraction
    [m] below the normal range: [(e + 149) * 2^23 + m] either way.  (A NaN is
    taken as the default quiet NaN; its sign is not modelled.) *)
Definition binary32_bits (x : pyfloat) : result Z :=
  match x with
  | Nan => Ok 0x7FC00000
  | Infinity negative => Ok (sign_bit negative + 0x7F800000)
  | Finite negative m e =>
      match nearest_binary32 (m * 2 ^ (Z.max e 0)) (2 ^ (Z.max (- e) 0)) with
      | Some (m32, e32) => Ok (sign_bit negative + (e32 + 149) * 2 ^ 23 + m32)
      | None => Raise OverflowError
      end
  end.

(** [struct.pack('<f', value)] *)
Definition pack_float_le (value : pyfloat) : result bytes :=
  bits <-? binary32_bits value ;;
  to_bytes bits 4 little false.

(** [struct.unpack('>HH', b)] for a buffer of four bytes. *)
Definition unpack_HH_be (b : bytes) : Z * Z :=
  (from_bytes (slice b 0 2) big false, from_bytes (slice b 2 4) big false).

Definition float_to_registers (value : pyfloat) : result (Z * Z) :=
  b <-? pack_float_le value ;;
  Ok (unpack_HH_be b).

(** Lines 58 to 60: [kp = 500.0], [ki = 0.0], [kd = 0.0]. *)
Definition kp : pyfloat := Finite false 500 0.
Definition ki : pyfloat := Finite false 0 0.
Definition kd : pyfloat := Finite false 0 0.

(** *** [bytes.hex()] *)

Definition hex_digit (n : Z) : ascii :=
  nth (Z.to_nat n) (chars "0123456789abcdef") "?"%char.

Fixpoint hex (bs : bytes) : string :=
  match bs with
  | [] => EmptyString
  | b :: rest => String (hex_digit (b / 16)) (String (hex_digit (b mod 16)) (hex rest))
  end.

(** *** The scripts as processes

    Outside the console loop the scripts print lines of their own and call
    [client.write_registers]; a process keeps these, in order, with the
    outputs of the serial line and of the console loop. *)

Inductive line : Set :=
  | EnableMotionResponse (hex : string)   (* actuator.py, "Enable motion response: .." *)
  | CouldNotConnect                       (* actuator.py, "Could not connect to motor." *)
  | Sending (hex : string)                (* test.py, "Sending: .." *)
  | ReceivedHex (hex : string)            (* test.py, "Received: .." *)
  | FailedToConnect.                      (* test.py, "Failed to connect" *)

Inductive event : Set :=
  | Device (o : output)
  | PrintLine (l : line)
  | WriteRegisters (address : Z) (values : Z * Z).   (* client.write_registers(address=.., values=..) *)

(** What comes back for one [client.write_registers] request.  The script
    never looks at the response; when none arrives the call does not return:
    pymodbus raises ModbusIOException. *)
Inductive register_reply : Set :=
  | Acknowledged
  | Unanswered.

(** The world of the console loop, whose own trace is kept empty, all
    events so far, newest first, and what the drive will do with the register
    writes still to come (no more replies scripted: no answer). *)
Record process : Type := Process {
  device : world;
  events : list event;
  replies : list register_reply
}.

Definition SIO (A : Type) : Type := process -> outcome A * process.

Definition sret {A} (a : A) : SIO A := fun p => (Returns a, p).

Definition sbind {A B} (m : SIO A) (k : A -> SIO B) : SIO B :=
  fun p =>
    match m p with
    | (Returns a, p') => k a p'
    | (Raises e, p') => (Raises e, p')
    | (Running, p') => (Running, p')
    end.

Definition slift {A} (r : result A) : SIO A :=
  fun p =>
    match r with
    | Ok a => (Returns a, p)
    | Raise e => (Raises e, p)
    end.

Definition with_trace (t : list output) (w : world) : world :=
  World (zero_offset_um w) (target_um w) (console w) (serial w)
        (in_waiting w) t.

(** Run a piece of the console-loop model and move its outputs to the
    events. *)
Definition run {A} (m : IO A) : SIO A :=
  fun p =>
    let (r, w') := m (with_trace [] (device p)) in
    (r, Process (with_trace [] w') (map Device (trace w') ++ events p)
                (replies p)).

Definition print_line (l : line) : SIO unit :=
  fun p => (Returns tt, Process (device p) (PrintLine l :: events p) (replies p)).

(** [client.write_registers(address=.., values=..)]: the request goes out;
    the call returns when a response arrives and raises ModbusIOException
    when none does. *)
Definition write_registers (address : Z) (values : Z * Z) : SIO unit :=
  fun p =>
    let p' := Process (device p) (WriteRegisters address values :: events p)
                      (tl (replies p)) in
    match replies p with
    | Acknowledged :: _ => (Returns tt, p')
    | _ => (Raises ModbusIOException, p')
    end.

(** [try: body / finally: cleanup] *)
Definition stry_finally {A} (body : SIO A) (cleanup : SIO unit) : SIO A :=
  fun p =>
    match body p with
    | (Returns a, p') => sbind cleanup (fun _ => sret a) p'
    | (Raises e, p') => sbind cleanup (fun _ => slift (Raise e)) p'
    | (Running, p') => (Running, p')
    end.

Notation "x <<- m ;; k" := (sbind m (fun x => k))
  (at level 61, m at next level, right associativity).
Notation "m ;;; k" := (sbind m (fun _ => k))
  (at level 61, right associativity).

(** actuator.py, lines 49 to 56. *)
Definition enable_motion : SIO unit :=
  let raw := [0x01; 0x64; 0x10; 0x00; 0x00; 0x00; 0x01] in
  crc <<- slift (modbus_crc raw) ;;
  let full_cmd := raw ++ crc in
  run (socket_write full_cmd) ;;;
  run (sleep 100) ;;;
  response <<- run (socket_read 8) ;;
  print_line (EnableMotionResponse (hex response)).

(** actuator.py as a whole; [connected] is what [client.connect()]
    returns. *)
Definition main (connected : bool) (fuel : nat) : SIO unit :=
  kp_regs <<- slift (float_to_registers kp) ;;
  ki_regs <<- slift (float_to_registers ki) ;;
  kd_regs <<- slift (float_to_registers kd) ;;
  run (set_zero_offset_um (Some 0)) ;;;
  if connected then
    enable_motion ;;;
    write_registers 688 kp_regs ;;;
    write_registers 690 ki_regs ;;;
    write_registers 692 kd_regs ;;;
    run (session fuel)
  else print_line CouldNotConnect.

(** test.py, lines 16 to 18. *)
Definition build_request : result bytes :=
  crc <-? modbus_crc [0x01; 0x64; 0x11] ;;
  Ok ([0x01; 0x64; 0x11] ++ crc).

(** test.py as a whole. *)
Definition test_main (connected : bool) : SIO unit :=
  if connected then
    stry_finally
      (request <<- slift build_request ;;
       print_line (Sending (hex request)) ;;;
       run (socket_write request) ;;;
       run (sleep 100) ;;;
       resp <<- run (socket_read 19) ;;
       print_line (ReceivedHex (hex resp)))
      (run close)
  else print_line FailedToConnect.

(** A process at the start of a script, with no reply to a register write
    scripted. *)
Definition boot (lines : list console_event) (rx : list serial_event)
  (pending : list Z) : process :=
  Process (World None None lines rx pending []) [] [].

End Script.

Import Script.

(* ================================================================== *)
(** ** Facts about the built-ins *)
(* ================================================================== *)

Section Digits.

Lemma le_digits_length (n : nat) : forall u, List.length (le_digits n u) = n.
Proof.
  induction n as [|n IH]; intro u; simpl; [reflexivity|].
  now rewrite IH.
Qed.

Lemma le_digits_bytes (n : nat) : forall u, well_formed (le_digits n u).
Proof.
  induction n as [|n IH]; intro u; simpl; constructor.
  - unfold is_byte. apply Z.mod_pos_bound. lia.
  - apply IH.
Qed.

Lemma pow256_succ (n : nat) :
  2 ^ (8 * Z.of_nat (S n)) = 256 * 2 ^ (8 * Z.of_nat n).
Proof.
  replace (8 * Z.of_nat (S n)) with (8 + 8 * Z.of_nat n) by lia.
  rewrite Z.pow_add_r by lia. reflexivity.
Qed.

Lemma pow256_pos (n : nat) : 0 < 2 ^ (8 * Z.of_nat n).
Proof. apply Z.pow_pos_nonneg; lia. Qed.

(** The digits of [u] carry [u] modulo [256^n]. *)
Lemma le_value_digits (n : nat) :
  forall u, le_value (le_digits n u) = u mod 2 ^ (8 * Z.of_nat n).
Proof.
  induction n as [|n IH]; intro u.
  - simpl. now rewrite Z.mod_1_r.
  - cbn [le_digits le_value]. rewrite IH, pow256_succ.
    rewrite Z.rem_mul_r; [reflexivity | lia | apply pow256_pos].
Qed.

Lemma arrange_involutive (order : byteorder) (bs : list Z) :
  arrange order (arrange order bs) = bs.
Proof. destruct order; simpl; [apply rev_involutive | reflexivity]. Qed.

Lemma arrange_length (order : byteorder) (bs : list Z) :
  List.length (arrange order bs) = List.length bs.
Proof. destruct order; simpl; [apply length_rev | reflexivity]. Qed.

Lemma arrange_bytes (order : byteorder) (bs : list Z) :
  well_formed bs -> well_formed (arrange order bs).
Proof.
  destruct order; simpl; [|trivial].
  unfold well_formed. rewrite !Forall_forall. intros H b Hb.
  apply H. now apply in_rev.
Qed.

End Digits.

Section ToFromBytes.

Variables (x : Z) (length : nat) (order : byteorder) (signed : bool).
Variable bs : bytes.
Hypothesis Hto : to_bytes x length order signed = Ok bs.

Let span := 2 ^ (8 * Z.of_nat length).

Lemma to_bytes_digits :
  bs = arrange order (le_digits length (x mod span)) /\
  (if signed then - span <= 2 * x < span else 0 <= x < span).
Proof.
  clear - Hto. subst span. unfold to_bytes in Hto.
  pose proof (pow256_pos length) as Hpos.
  destruct signed.
  - destruct (- 2 ^ (8 * Z.of_nat length) <=? 2 * x) eqn:E1;
      destruct (2 * x <? 2 ^ (8 * Z.of_nat length)) eqn:E2;
      simpl in Hto; try discriminate.
    injection Hto as <-. split; [reflexivity | lia].
  - destruct (x <? 0) eqn:E1; [discriminate|].
    destruct (x <? 2 ^ (8 * Z.of_nat length)) eqn:E2; [|discriminate].
    injection Hto as <-. rewrite Z.mod_small by lia. split; [reflexivity | lia].
Qed.

Lemma to_bytes_length : List.length bs = length.
Proof.
  destruct to_bytes_digits as [-> _].
  now rewrite arrange_length, le_digits_length.
Qed.

Lemma to_bytes_well_formed : well_formed bs.
Proof.
  destruct to_bytes_digits as [-> _].
  apply arrange_bytes, le_digits_bytes.
Qed.

(** Reading the bytes back with the same order and signedness gives [x]. *)
Lemma from_bytes_to_bytes : from_bytes bs order signed = x.
Proof.
  pose proof to_bytes_length as Hlen.
  destruct to_bytes_digits as [Hbs Hrange].
  unfold from_bytes. rewrite Hlen. fold span.
  rewrite Hbs, arrange_involutive, le_value_digits. fold span.
  assert (Hpos : 0 < span) by apply pow256_pos.
  clearbody span. rewrite Z.mod_mod by lia.
  destruct signed; cbv beta iota in Hrange; cbn [andb].
  - destruct (Z_lt_le_dec x 0) as [Hneg | Hnn].
    + assert (Hm : x mod span = x + span).
      { symmetry. apply Z.mod_unique with (q := -1); lia. }
      rewrite Hm. destruct (span <=? 2 * (x + span)) eqn:E; lia.
    + rewrite Z.mod_small by lia.
      destruct (span <=? 2 * x) eqn:E; lia.
  - apply Z.mod_small. lia.
Qed.

End ToFromBytes.

(* ================================================================== *)
(** ** The checksum *)
(* ================================================================== *)

Section Checksum.

Lemma lxor_below (n a b : Z) :
  0 <= n -> 0 <= a < 2 ^ n -> 0 <= b < 2 ^ n -> 0 <= Z.lxor a b < 2 ^ n.
Proof.
  intros Hn Ha Hb.
  assert (Hnn : 0 <= Z.lxor a b) by (apply Z.lxor_nonneg; lia).
  split; [exact Hnn|].
  destruct (Z.eq_dec n 0) as [-> | Hn0].
  - change (2 ^ 0) with 1 in *.
    replace a with 0 by lia. replace b with 0 by lia. reflexivity.
  - destruct (Z.eq_dec (Z.lxor a b) 0) as [-> | Hne];
      [apply Z.pow_pos_nonneg; lia|].
    assert (Hlog2 : forall c, 0 <= c < 2 ^ n -> Z.log2 c < n).
    { intros c Hc. destruct (Z.eq_dec c 0) as [-> | Hc0].
      - change (Z.log2 0) with 0. lia.
      - apply Z.log2_lt_pow2; lia. }
    apply Z.log2_lt_pow2; [lia|].
    pose proof (Z.log2_lxor a b ltac:(lia) ltac:(lia)) as Hlog.
    pose proof (Hlog2 a Ha). pose proof (Hlog2 b Hb). lia.
Qed.

Lemma half_word16 (c : Z) : word16 c -> 0 <= c / 2 < 32768.
Proof.
  unfold word16. intros Hc. split.
  - apply Z.div_pos; lia.
  - apply Z.div_lt_upper_bound; lia.
Qed.

(** The round of the code and the round of the specification agree on every
    integer. *)
Lemma crc_round_spec (c : Z) : crc_round c = CRC16Engine.round c.
Proof.
  unfold crc_round, CRC16Engine.round.
  rewrite Z.shiftr_div_pow2 by lia. change (2 ^ 1) with 2.
  change 1 with (Z.ones 1) at 1. rewrite Z.land_ones by lia.
  change (2 ^ 1) with 2. rewrite Zmod_odd.
  now destruct (Z.odd c).
Qed.

Lemma round_word16 (c : Z) : word16 c -> word16 (CRC16Engine.round c).
Proof.
  intros Hc. pose proof (half_word16 c Hc) as Hh.
  unfold CRC16Engine.round, word16.
  destruct (Z.odd c); [|lia].
  change 65536 with (2 ^ 16). apply lxor_below; [lia | | ].
  - change (2 ^ 16) with 65536. lia.
  - change (2 ^ 16) with 65536. lia.
Qed.

Lemma rounds_word16 (n : nat) :
  forall c, word16 c -> word16 (CRC16Engine.rounds n c).
Proof.
  induction n as [|n IH]; intros c Hc; simpl; [exact Hc|].
  apply IH, round_word16, Hc.
Qed.

Lemma iter_rounds (n : nat) :
  forall c, Nat.iter n crc_round c = CRC16Engine.rounds n c.
Proof.
  induction n as [|n IH]; intro c; [reflexivity|].
  rewrite Nat.iter_succ_r, IH. simpl. now rewrite crc_round_spec.
Qed.

(** XOR with a byte only touches the low byte of the accumulator. *)
Lemma xor_byte_low (acc b : Z) :
  is_byte b -> CRC16Engine.xor_into_low_byte acc b = Z.lxor acc b.
Proof.
  unfold is_byte, CRC16Engine.xor_into_low_byte. intros Hb.
  rewrite (Z.div_mod (Z.lxor acc b) 256) by lia.
  f_equal.
  - f_equal. change 256 with (2 ^ 8).
    rewrite <- !Z.shiftr_div_pow2 by lia. rewrite Z.shiftr_lxor.
    rewrite (Z.shiftr_div_pow2 b) by lia.
    rewrite (Z.div_small b) by (change (2 ^ 8) with 256; lia).
    now rewrite Z.lxor_0_r.
  - change 256 with (2 ^ 8). apply Z.bits_inj'. intros n Hn.
    rewrite Z.lxor_spec.
    destruct (Z_lt_le_dec n 8) as [Hlow | Hhigh].
    + rewrite !Z.mod_pow2_bits_low by lia. now rewrite Z.lxor_spec.
    + rewrite !Z.mod_pow2_bits_high by lia.
      replace b with (b mod 2 ^ 8)
        by (apply Z.mod_small; change (2 ^ 8) with 256; lia).
      now rewrite Z.mod_pow2_bits_high by lia.
Qed.

Lemma xor_byte_word16 (acc b : Z) :
  word16 acc -> is_byte b -> word16 (Z.lxor acc b).
Proof.
  unfold word16, is_byte. intros Ha Hb.
  change 65536 with (2 ^ 16). apply lxor_below; change (2 ^ 16) with 65536; lia.
Qed.

Lemma crc_update_spec (acc b : Z) :
  is_byte b ->
  crc_update acc b = CRC16Engine.rounds 8 (CRC16Engine.xor_into_low_byte acc b).
Proof.
  intros Hb. unfold crc_update. now rewrite iter_rounds, xor_byte_low.
Qed.

Lemma fold_compute_from (data : list Z) :
  well_formed data ->
  forall acc, fold_left crc_update data acc = CRC16Engine.compute_from acc data.
Proof.
  induction 1 as [|b rest Hb _ IH]; intro acc; simpl; [reflexivity|].
  now rewrite IH, crc_update_spec.
Qed.

Lemma compute_from_word16 (data : list Z) :
  well_formed data ->
  forall acc, word16 acc -> word16 (CRC16Engine.compute_from acc data).
Proof.
  induction 1 as [|b rest Hb _ IH]; intros acc Hacc;
    cbn [CRC16Engine.compute_from]; [exact Hacc|].
  apply IH, rounds_word16. rewrite xor_byte_low by exact Hb.
  now apply xor_byte_word16.
Qed.

Lemma crc_accumulate_spec (data : list Z) :
  well_formed data ->
  crc_accumulate data = CRC16Engine.compute data /\
  word16 (CRC16Engine.compute data).
Proof.
  intros Hd. split.
  - apply fold_compute_from, Hd.
  - apply compute_from_word16; [exact Hd | unfold word16; lia].
Qed.

Lemma to_bytes_word16 (c : Z) :
  word16 c -> to_bytes c 2 little false = Ok (CRC16Engine.serialize_le c).
Proof.
  unfold word16, to_bytes. intros Hc.
  change (2 ^ (8 * Z.of_nat 2)) with 65536.
  destruct (Z.ltb_spec c 0); [lia|].
  destruct (Z.ltb_spec c 65536); [|lia].
  unfold CRC16Engine.serialize_le. cbn [arrange le_digits].
  do 3 f_equal. apply Z.mod_small. split.
  - apply Z.div_pos; lia.
  - apply Z.div_lt_upper_bound; lia.
Qed.

(** On bytes [modbus_crc] never raises and returns the two bytes of the
    specification's CRC, low byte first. *)
Lemma modbus_crc_bytes (data : list Z) :
  well_formed data ->
  modbus_crc data = Ok (CRC16Engine.serialize_le (CRC16Engine.compute data)).
Proof.
  intros Hd. destruct (crc_accumulate_spec data Hd) as [Heq Hw].
  unfold modbus_crc. rewrite Heq. now apply to_bytes_word16.
Qed.

Lemma serialize_le_bytes (c : Z) :
  word16 c -> well_formed (CRC16Engine.serialize_le c).
Proof.
  unfold word16. intros Hc.
  unfold CRC16Engine.serialize_le, well_formed, is_byte.
  apply Forall_cons; [|apply Forall_cons; [|apply Forall_nil]].
  - apply Z.mod_pos_bound; lia.
  - split; [apply Z.div_pos | apply Z.div_lt_upper_bound]; lia.
Qed.

End Checksum.

(** C4. [modbus_crc] is the CRC-16 of the specification: on every byte
    sequence it never raises and returns the accumulator that starts at
    0xFFFF, takes each byte into its low byte by XOR and goes through eight
    shift-and-conditional-XOR rounds with 0xA001, as a 16-bit value in two
    bytes, low byte first; and on [01 64 11] it returns the bytes CA CC. *)
Theorem modbus_crc_reference (data : list Z) :
  well_formed data ->
  0 <= CRC16Engine.compute data < 2 ^ 16 /\
  modbus_crc data
    = Ok [CRC16Engine.compute data mod 256; CRC16Engine.compute data / 256] /\
  modbus_crc [0x01; 0x64; 0x11] = Ok [0xCA; 0xCC].
Proof.
  intros Hd. split; [|split].
  - destruct (crc_accumulate_spec data Hd) as [_ Hw]. exact Hw.
  - now apply modbus_crc_bytes.
  - reflexivity.
Qed.

Lemma modbus_crc_reference_witness :
  well_formed [0x31; 0x32; 0x33; 0x34; 0x35; 0x36; 0x37; 0x38; 0x39] /\
  modbus_crc [0x31; 0x32; 0x33; 0x34; 0x35; 0x36; 0x37; 0x38; 0x39]
    = Ok [0x37; 0x4B].
Proof.
  assert (Hd : well_formed [0x31; 0x32; 0x33; 0x34; 0x35; 0x36; 0x37; 0x38; 0x39])
    by (repeat constructor; unfold is_byte; lia).
  split; [exact Hd|].
  destruct (modbus_crc_reference _ Hd) as (_ & Heq & _).
  rewrite Heq. reflexivity.
Defined.

(* ================================================================== *)
(** ** Move frames *)
(* ================================================================== *)

Section MoveFrame.

Variable position_um : Z.

Let u := position_um mod 2 ^ 32.

(** The four bytes of the position field, most significant first. *)
Let payload : list Z :=
  [u / 2 ^ 24; (u / 2 ^ 16) mod 256; (u / 2 ^ 8) mod 256; u mod 256].

Lemma to_bytes_int32 :
  - 2 ^ 31 <= position_um < 2 ^ 31 ->
  to_bytes position_um 4 big true = Ok payload.
Proof.
  intros Hr. unfold to_bytes.
  change (2 ^ (8 * Z.of_nat 4)) with (2 ^ 32).
  destruct (Z.leb_spec (- 2 ^ 32) (2 * position_um)); [|lia].
  destruct (Z.ltb_spec (2 * position_um) (2 ^ 32)); [|lia].
  cbn [andb arrange le_digits rev app]. fold u. subst payload.
  assert (Hu : 0 <= u < 2 ^ 32) by (apply Z.mod_pos_bound; lia).
  rewrite !Z.div_div by lia.
  change (256 * 256 * 256) with (2 ^ 24). change (256 * 256) with (2 ^ 16).
  change 256 with (2 ^ 8) at 3.
  do 2 f_equal. apply Z.mod_small. split.
  - apply Z.div_pos; lia.
  - apply Z.div_lt_upper_bound; lia.
Qed.

Lemma to_bytes_beyond_int32 :
  ~ (- 2 ^ 31 <= position_um < 2 ^ 31) ->
  to_bytes position_um 4 big true = Raise OverflowError.
Proof.
  intros Hr. unfold to_bytes.
  change (2 ^ (8 * Z.of_nat 4)) with (2 ^ 32).
  destruct (Z.leb_spec (- 2 ^ 32) (2 * position_um));
    destruct (Z.ltb_spec (2 * position_um) (2 ^ 32));
    cbn [andb]; try reflexivity.
  exfalso. apply Hr. lia.
Qed.

Lemma payload_bytes : well_formed payload.
Proof.
  assert (Hu : 0 <= u < 2 ^ 32) by (apply Z.mod_pos_bound; lia).
  subst payload. unfold well_formed, is_byte.
  repeat apply Forall_cons; try apply Forall_nil;
    try (apply Z.mod_pos_bound; lia).
  split; [apply Z.div_pos | apply Z.div_lt_upper_bound]; lia.
Qed.

Let request : list Z := [0x01; 0x64; 0x1E] ++ payload.

Lemma request_bytes : well_formed request.
Proof.
  subst request. apply Forall_app. split; [|apply payload_bytes].
  unfold is_byte. repeat apply Forall_cons; try apply Forall_nil; lia.
Qed.

(** Within int32 the frame is the header, the position field and the CRC of
    both, low byte first. *)
Lemma build_position_command_int32 :
  - 2 ^ 31 <= position_um < 2 ^ 31 ->
  build_position_command position_um
    = Ok (request ++ CRC16Engine.serialize_le (CRC16Engine.compute request)).
Proof.
  intros Hr. unfold build_position_command.
  rewrite (to_bytes_int32 Hr). cbn [rbind]. fold request.
  rewrite (modbus_crc_bytes request request_bytes). reflexivity.
Qed.

Lemma build_position_command_beyond_int32 :
  ~ (- 2 ^ 31 <= position_um < 2 ^ 31) ->
  build_position_command position_um = Raise OverflowError.
Proof.
  intros Hr. unfold build_position_command.
  now rewrite (to_bytes_beyond_int32 Hr).
Qed.

Lemma position_field_roundtrip :
  - 2 ^ 31 <= position_um < 2 ^ 31 ->
  from_bytes payload big true = position_um.
Proof.
  intros Hr. exact (from_bytes_to_bytes _ _ _ _ _ (to_bytes_int32 Hr)).
Qed.

End MoveFrame.

(** C8. For every signed 32-bit [position_um] the frame built by
    [build_position_command] is [01 64 1E], the four bytes of [position_um]
    in two's complement with the most significant byte first, and the CRC of
    these seven bytes with its low byte first: nine bytes in all; and reading
    bytes 3 to 6 of the frame back as a signed big-endian integer gives
    [position_um]. *)
Theorem build_position_command_roundtrip (position_um : Z) :
  - 2 ^ 31 <= position_um < 2 ^ 31 ->
  let u := position_um mod 2 ^ 32 in
  let payload :=
    [u / 2 ^ 24; (u / 2 ^ 16) mod 256; (u / 2 ^ 8) mod 256; u mod 256] in
  let crc := CRC16Engine.compute ([0x01; 0x64; 0x1E] ++ payload) in
  let frame := [0x01; 0x64; 0x1E] ++ payload ++ [crc mod 256; crc / 256] in
  build_position_command position_um = Ok frame /\
  List.length frame = 9%nat /\
  well_formed frame /\
  from_bytes (slice frame 3 7) big true = position_um.
Proof.
  intros Hr u payload crc frame.
  pose proof (request_bytes position_um) as Hreq.
  split; [|split; [|split]].
  - rewrite (build_position_command_int32 position_um Hr).
    subst frame. now rewrite <- app_assoc.
  - reflexivity.
  - subst frame. change (well_formed (([1; 100; 30] ++ payload)
                           ++ CRC16Engine.serialize_le crc)).
    apply Forall_app. split; [exact Hreq|].
    apply serialize_le_bytes.
    now destruct (crc_accumulate_spec _ Hreq) as [_ Hw].
  - change (slice frame 3 7) with payload.
    exact (position_field_roundtrip position_um Hr).
Qed.

Lemma build_position_command_roundtrip_witness :
  - 2 ^ 31 <= -2000000 < 2 ^ 31 /\
  build_position_command (-2000000)
    = Ok [0x01; 0x64; 0x1E; 0xFF; 0xE1; 0x7B; 0x80; 0xE8; 0x94] /\
  from_bytes (slice [0x01; 0x64; 0x1E; 0xFF; 0xE1; 0x7B; 0x80; 0xE8; 0x94] 3 7)
    big true = -2000000.
Proof.
  assert (Hr : - 2 ^ 31 <= -2000000 < 2 ^ 31) by lia.
  split; [exact Hr|].
  destruct (build_position_command_roundtrip (-2000000) Hr) as (Hb & _ & _ & Hp).
  split; [exact Hb | exact Hp].
Defined.

(** C10. [build_position_command] returns a frame exactly on the signed
    32-bit integers: there it returns nine bytes, and on every other integer
    the conversion of the position to four bytes raises OverflowError. *)
Theorem build_position_command_total_on_int32 (position_um : Z) :
  (- 2 ^ 31 <= position_um < 2 ^ 31 ->
   exists frame,
     build_position_command position_um = Ok frame /\
     List.length frame = 9%nat /\ well_formed frame) /\
  (~ (- 2 ^ 31 <= position_um < 2 ^ 31) ->
   to_bytes position_um 4 big true = Raise OverflowError /\
   build_position_command position_um = Raise OverflowError).
Proof.
  split.
  - intros Hr. eexists. split; [apply (build_position_command_int32 _ Hr)|].
    pose proof (request_bytes position_um) as Hreq.
    split; [reflexivity|].
    apply Forall_app. split; [exact Hreq|].
    apply serialize_le_bytes.
    now destruct (crc_accumulate_spec _ Hreq) as [_ Hw].
  - intros Hr. split.
    + apply (to_bytes_beyond_int32 _ Hr).
    + apply (build_position_command_beyond_int32 _ Hr).
Qed.

Lemma build_position_command_total_on_int32_witness :
  (exists frame, build_position_command 2147483647 = Ok frame /\
                 List.length frame = 9%nat) /\
  build_position_command 2147483648 = Raise OverflowError /\
  build_position_command (-2147483649) = Raise OverflowError.
Proof.
  split; [|split].
  - destruct (proj1 (build_position_command_total_on_int32 2147483647))
      as (frame & Hf & Hl & _); [lia|].
    exists frame. split; assumption.
  - apply (proj2 (build_position_command_total_on_int32 2147483648)). lia.
  - apply (proj2 (build_position_command_total_on_int32 (-2147483649))). lia.
Defined.

(* ================================================================== *)
(** ** Response decoding *)
(* ================================================================== *)

Section Decoding.

Lemma index_nth (bs : bytes) (i : nat) :
  (i < List.length bs)%nat -> index bs i = Ok (nth i bs 0).
Proof.
  intros Hi. unfold index. now rewrite (nth_error_nth' bs 0 Hi).
Qed.

Lemma from_bytes_be4_signed (a b c d : Z) :
  from_bytes [a; b; c; d] big true
  = (let u := a * 2 ^ 24 + b * 2 ^ 16 + c * 2 ^ 8 + d in
     if u <? 2 ^ 31 then u else u - 2 ^ 32).
Proof.
  unfold from_bytes. cbn [arrange rev app le_value List.length andb].
  change (2 ^ (8 * Z.of_nat 4)) with (2 ^ 32). cbv zeta.
  replace (d + 256 * (c + 256 * (b + 256 * (a + 256 * 0))))
    with (a * 2 ^ 24 + b * 2 ^ 16 + c * 2 ^ 8 + d) by ring.
  destruct (Z.leb_spec (2 ^ 32) (2 * (a * 2 ^ 24 + b * 2 ^ 16 + c * 2 ^ 8 + d)));
    destruct (Z.ltb_spec (a * 2 ^ 24 + b * 2 ^ 16 + c * 2 ^ 8 + d) (2 ^ 31));
    lia.
Qed.

Lemma from_bytes_be2_unsigned (a b : Z) :
  from_bytes [a; b] big false = a * 2 ^ 8 + b.
Proof.
  unfold from_bytes. cbn [arrange rev app le_value List.length andb]. ring.
Qed.

Lemma parse_none (w : world) :
  parse_motor_response_line None w
  = (Returns None, record (Print InvalidLength) w).
Proof. reflexivity. Qed.

Lemma parse_bad_length (bs : bytes) (w : world) :
  List.length bs <> 19%nat ->
  parse_motor_response_line (Some bs) w
  = (Returns None, record (Print InvalidLength) w).
Proof.
  intros Hl. unfold parse_motor_response_line.
  apply Nat.eqb_neq in Hl. now rewrite Hl.
Qed.

Lemma parse_bad_function (bs : bytes) (w : world) :
  List.length bs = 19%nat -> nth 1 bs 0 <> 0x64 ->
  parse_motor_response_line (Some bs) w
  = (Returns None, record (Print (UnexpectedFunction (nth 1 bs 0))) w).
Proof.
  intros Hl Hc. unfold parse_motor_response_line.
  rewrite Hl, (index_nth bs 1) by lia. cbn [Nat.eqb negb].
  unfold bind at 1. cbn [lift].
  apply Z.eqb_neq in Hc. now rewrite Hc.
Qed.

Lemma parse_telemetry (bs : bytes) (w : world) :
  List.length bs = 19%nat -> nth 1 bs 0 = 0x64 ->
  parse_motor_response_line (Some bs) w
  = (Returns (Some (position (fields_of bs))),
     record (Print (TelemetryLine (fields_of bs))) w).
Proof.
  intros Hl Hc. unfold parse_motor_response_line.
  rewrite Hl, (index_nth bs 1), (index_nth bs 12) by lia.
  cbn [Nat.eqb negb]. unfold bind at 1. cbn [lift].
  rewrite Hc. reflexivity.
Qed.

End Decoding.

Section FieldLayout.

Ltac nineteen bs :=
  do 19 (destruct bs as [|? bs]; [discriminate|]);
  destruct bs; [|discriminate].

Ltac bytes_of H :=
  repeat match type of H with
         | Forall _ (_ :: _) =>
             let Hb := fresh "Hb" in
             let Hr := fresh "Hr" in
             apply Forall_cons_iff in H; destruct H as [Hb H];
             unfold is_byte in Hb
         end.

(** The decoded fields as arithmetic on the bytes at their offsets. *)
Lemma fields_of_layout (bs : bytes) :
  List.length bs = 19%nat ->
  let b i := nth i bs 0 in
  let signed32 u := if u <? 2 ^ 31 then u else u - 2 ^ 32 in
  fields_of bs
  = Telemetry
      (signed32 (b 2%nat * 2 ^ 24 + b 3%nat * 2 ^ 16 + b 4%nat * 2 ^ 8 + b 5%nat))
      (signed32 (b 6%nat * 2 ^ 24 + b 7%nat * 2 ^ 16 + b 8%nat * 2 ^ 8 + b 9%nat))
      (b 10%nat * 2 ^ 8 + b 11%nat)
      (b 12%nat)
      (b 13%nat * 2 ^ 8 + b 14%nat)
      (b 15%nat * 2 ^ 8 + b 16%nat).
Proof.
  intros Hl b signed32. nineteen bs.
  unfold fields_of, slice. cbn [firstn skipn nth]. subst b signed32.
  cbn [nth]. rewrite !from_bytes_be4_signed, !from_bytes_be2_unsigned.
  reflexivity.
Qed.

Lemma fields_of_ranges (bs : bytes) :
  List.length bs = 19%nat -> well_formed bs ->
  - 2 ^ 31 <= position (fields_of bs) < 2 ^ 31 /\
  - 2 ^ 31 <= force (fields_of bs) < 2 ^ 31 /\
  0 <= power (fields_of bs) < 2 ^ 16 /\
  0 <= temperature (fields_of bs) < 2 ^ 8 /\
  0 <= voltage (fields_of bs) < 2 ^ 16 /\
  0 <= errors (fields_of bs) < 2 ^ 16.
Proof.
  intros Hl Hwf. rewrite (fields_of_layout bs Hl). nineteen bs.
  unfold well_formed in Hwf. bytes_of Hwf.
  cbn [position force power temperature voltage errors nth].
  repeat match goal with
         | |- context [?u <? 2 ^ 31] => destruct (Z.ltb_spec u (2 ^ 31))
         end; lia.
Qed.

End FieldLayout.

(** C5 (counterexample). The value returned does not tell the two
    failures apart: for a 3-byte response and for a 19-byte response with
    function code 0x65 it is [None] both times, and only the printed line
    differs; and for a good response the value returned is the position
    alone, not the telemetry.  So no reading of the returned value gives
    "bad length" for the one and "bad function code" for the other. *)
Lemma parse_motor_response_line_failures_return_alike :
  let short := [0x01; 0x64; 0x00] in
  let wrong :=
    [0x01; 0x65; 0x00; 0x00; 0x01; 0xF4; 0x00; 0x00; 0x00; 0x00;
     0x00; 0x00; 0x19; 0x00; 0x00; 0x00; 0x00; 0x12; 0x34] in
  let good :=
    [0x01; 0x64; 0x00; 0x00; 0x01; 0xF4; 0x00; 0x00; 0x00; 0x07;
     0x00; 0x02; 0x19; 0x00; 0x30; 0x00; 0x00; 0x12; 0x34] in
  let w := initial_world [] [] [] in
  List.length short <> 19%nat /\
  List.length wrong = 19%nat /\ nth 1 wrong 0 <> 0x64 /\
  parse_motor_response_line (Some short) w
  = (Returns None, record (Print InvalidLength) w) /\
  parse_motor_response_line (Some wrong) w
  = (Returns None, record (Print (UnexpectedFunction 0x65)) w) /\
  parse_motor_response_line (Some good) w
  = (Returns (Some 500),
     record (Print (TelemetryLine (Telemetry 500 7 2 0x19 0x30 0))) w) /\
  fst (parse_motor_response_line (Some short) w)
  = fst (parse_motor_response_line (Some wrong) w) /\
  ~ (exists kind : outcome (option Z) -> bool,
       kind (fst (parse_motor_response_line (Some short) w)) = true /\
       kind (fst (parse_motor_response_line (Some wrong) w)) = false).
Proof.
  intros short wrong good w.
  split; [discriminate|]. split; [reflexivity|]. split; [discriminate|].
  split; [reflexivity|]. split; [reflexivity|]. split; [reflexivity|].
  split; [reflexivity|].
  intros (kind & Hs & Hw).
  change (fst (parse_motor_response_line (Some short) w))
    with (@Returns (option Z) None) in Hs.
  change (fst (parse_motor_response_line (Some wrong) w))
    with (@Returns (option Z) None) in Hw.
  rewrite Hs in Hw. discriminate Hw.
Qed.

(** C5. [parse_motor_response_line] always returns, never raises, and
    prints exactly one line.  It prints the length diagnostic and returns
    [None] exactly when the response is absent or not 19 bytes long; it
    prints the function-code diagnostic, with the code found, and returns
    [None] exactly when the response is 19 bytes long and byte 1 is not
    0x64; and exactly in the remaining case it prints the telemetry decoded
    from the bytes at their offsets (position and force signed 32-bit
    big-endian from bytes 2 to 5 and 6 to 9, power, voltage and errors
    unsigned 16-bit big-endian from bytes 10, 13 and 15, temperature byte
    12) and returns the position.  The kind of failure is in the printed
    line only. *)
Theorem parse_motor_response_line_outcomes (response : option bytes) (w : world) :
  let bad_length :=
    match response with
    | None => True
    | Some bs => List.length bs <> 19%nat
    end in
  let b i :=
    match response with
    | None => 0
    | Some bs => nth i bs 0
    end in
  let signed32 u := if u <? 2 ^ 31 then u else u - 2 ^ 32 in
  let t :=
    Telemetry
      (signed32 (b 2%nat * 2 ^ 24 + b 3%nat * 2 ^ 16 + b 4%nat * 2 ^ 8 + b 5%nat))
      (signed32 (b 6%nat * 2 ^ 24 + b 7%nat * 2 ^ 16 + b 8%nat * 2 ^ 8 + b 9%nat))
      (b 10%nat * 2 ^ 8 + b 11%nat)
      (b 12%nat)
      (b 13%nat * 2 ^ 8 + b 14%nat)
      (b 15%nat * 2 ^ 8 + b 16%nat) in
  (bad_length <->
   parse_motor_response_line response w
   = (Returns None, record (Print InvalidLength) w)) /\
  (~ bad_length /\ b 1%nat <> 0x64 <->
   parse_motor_response_line response w
   = (Returns None, record (Print (UnexpectedFunction (b 1%nat))) w)) /\
  (~ bad_length /\ b 1%nat = 0x64 <->
   parse_motor_response_line response w
   = (Returns (Some (position t)), record (Print (TelemetryLine t)) w)) /\
  (forall e w', parse_motor_response_line response w <> (Raises e, w')) /\
  (forall w', parse_motor_response_line response w <> (Running, w')).
Proof.
  intros bad_length b signed32 t.
  assert (Hcases :
    (bad_length /\
     parse_motor_response_line response w
     = (Returns None, record (Print InvalidLength) w)) \/
    (~ bad_length /\ b 1%nat <> 0x64 /\
     parse_motor_response_line response w
     = (Returns None, record (Print (UnexpectedFunction (b 1%nat))) w)) \/
    (~ bad_length /\ b 1%nat = 0x64 /\
     parse_motor_response_line response w
     = (Returns (Some (position t)), record (Print (TelemetryLine t)) w))).
  { subst bad_length t signed32 b. destruct response as [bs|].
    - destruct (Nat.eq_dec (List.length bs) 19) as [Hl | Hl].
      + destruct (Z.eq_dec (nth 1 bs 0) 0x64) as [Hc | Hc].
        * right; right. rewrite (parse_telemetry bs w Hl Hc).
          pose proof (fields_of_layout bs Hl) as Hf.
          cbv beta zeta in Hf. rewrite Hf.
          repeat split; [tauto | exact Hc].
        * right; left. rewrite (parse_bad_function bs w Hl Hc).
          repeat split; [tauto | exact Hc].
      + left. now rewrite (parse_bad_length bs w Hl).
    - left. now rewrite parse_none. }
  clearbody t. clearbody bad_length b. clear signed32.
  destruct Hcases as [[Hb E] | [(Hb & Hc & E) | (Hb & Hc & E)]];
    rewrite E; (split; [|split; [|split; [|split]]]).
  all: try (intros ? ? H; discriminate H).
  all: try (intros ? H; discriminate H).
  all: split.
  all: try (intros _; reflexivity).
  all: try (intros _; assumption).
  all: try (intros _; split; assumption).
  all: try (intros [? _]; contradiction).
  all: try (intros H; discriminate H).
  all: try (intros H; contradiction).
  all: intros [_ H]; contradiction.
Qed.

(** C7. For every 19-byte response whose byte 1 is 0x64 the decoder reads
    the position from bytes 2 to 5 and the force from bytes 6 to 9 as signed
    big-endian 32-bit integers, the power from bytes 10 and 11, the voltage
    from bytes 13 and 14 and the error bitmap from bytes 15 and 16 as
    unsigned big-endian 16-bit integers, and the temperature from byte 12;
    each value is in the range of its type, and position bytes 00 00 27 10
    decode to 10000. *)
Theorem parse_motor_response_line_fields (bs : bytes) (w : world) :
  List.length bs = 19%nat -> well_formed bs -> nth 1 bs 0 = 0x64 ->
  let b i := nth i bs 0 in
  let signed32 u := if u <? 2 ^ 31 then u else u - 2 ^ 32 in
  let t :=
    Telemetry
      (signed32 (b 2%nat * 2 ^ 24 + b 3%nat * 2 ^ 16 + b 4%nat * 2 ^ 8 + b 5%nat))
      (signed32 (b 6%nat * 2 ^ 24 + b 7%nat * 2 ^ 16 + b 8%nat * 2 ^ 8 + b 9%nat))
      (b 10%nat * 2 ^ 8 + b 11%nat)
      (b 12%nat)
      (b 13%nat * 2 ^ 8 + b 14%nat)
      (b 15%nat * 2 ^ 8 + b 16%nat) in
  parse_motor_response_line (Some bs) w
  = (Returns (Some (position t)), record (Print (TelemetryLine t)) w) /\
  (- 2 ^ 31 <= position t < 2 ^ 31) /\
  (- 2 ^ 31 <= force t < 2 ^ 31) /\
  (0 <= power t < 2 ^ 16) /\
  (0 <= temperature t < 2 ^ 8) /\
  (0 <= voltage t < 2 ^ 16) /\
  (0 <= errors t < 2 ^ 16) /\
  (b 2%nat = 0x00 -> b 3%nat = 0x00 -> b 4%nat = 0x27 -> b 5%nat = 0x10 ->
   position t = 10000).
Proof.
  intros Hl Hwf Hc b signed32 t.
  assert (Ht : fields_of bs = t) by apply (fields_of_layout bs Hl).
  rewrite <- Ht. split; [apply (parse_telemetry bs w Hl Hc)|].
  pose proof (fields_of_ranges bs Hl Hwf) as Hr.
  repeat (split; [tauto|]).
  intros H2 H3 H4 H5. rewrite Ht. subst t. cbn [position].
  rewrite H2, H3, H4, H5. reflexivity.
Qed.

Lemma parse_motor_response_line_fields_witness :
  fst (parse_motor_response_line
         (Some [0x01; 0x64; 0x00; 0x00; 0x27; 0x10; 0xFF; 0xFF; 0xFF; 0x38;
                0x00; 0x0C; 0x1F; 0x5D; 0xC0; 0x00; 0x02; 0x12; 0x34])
         (initial_world [] [] []))
  = Returns (Some 10000).
Proof.
  set (bs := [0x01; 0x64; 0x00; 0x00; 0x27; 0x10; 0xFF; 0xFF; 0xFF; 0x38;
              0x00; 0x0C; 0x1F; 0x5D; 0xC0; 0x00; 0x02; 0x12; 0x34]).
  assert (Hl : List.length bs = 19%nat) by reflexivity.
  assert (Hwf : well_formed bs)
    by (repeat apply Forall_cons; try apply Forall_nil; unfold is_byte; lia).
  assert (Hc : nth 1 bs 0 = 0x64) by reflexivity.
  destruct (parse_motor_response_line_fields bs (initial_world [] [] []) Hl Hwf Hc)
    as [Hp _].
  exact (f_equal fst Hp).
Defined.

(* ================================================================== *)
(** ** The zero branch *)
(* ================================================================== *)

Section ZeroBranch.

(** The probe frame: [build_position_command(0)]. *)
Let probe : bytes := [0x01; 0x64; 0x1E; 0x00; 0x00; 0x00; 0x00; 0xAB; 0xE6].

Lemma build_probe : build_position_command 0 = Ok probe.
Proof. reflexivity. Qed.

(** The world once the probe is written and the settle time has passed. *)
Let probed (w : world) : world :=
  record (Sleep 100) (record (SocketWrite probe) (record (Print Zeroing) w)).

Lemma zero_timeout (w : world) :
  serial w = [] ->
  zero w = (Returns tt, record (Print ZeroFailed) (probed w)).
Proof.
  intros Hs. unfold zero, bind, print, sleep, socket_write, emit, socket_read.
  rewrite build_probe. cbn [lift record serial]. rewrite Hs. reflexivity.
Qed.

Lemma zero_interrupted (w : world) (rest : list serial_event) :
  serial w = SerialInterrupt :: rest ->
  zero w = (Raises KeyboardInterrupt, set_serial rest (probed w)).
Proof.
  intros Hs. unfold zero, bind, print, sleep, socket_write, emit, socket_read.
  rewrite build_probe. cbn [lift record serial]. rewrite Hs. reflexivity.
Qed.

Lemma zero_short (w : world) (bs : bytes) (rest : list serial_event) :
  serial w = Received bs :: rest ->
  List.length (firstn 19 bs) <> 19%nat ->
  zero w = (Returns tt, record (Print ZeroFailed) (set_serial rest (probed w))).
Proof.
  intros Hs Hl. apply Nat.eqb_neq in Hl.
  unfold zero, bind, print, sleep, socket_write, emit, socket_read.
  rewrite build_probe. cbn [lift record serial]. rewrite Hs, Hl. reflexivity.
Qed.

Lemma zero_full (w : world) (bs : bytes) (rest : list serial_event) :
  serial w = Received bs :: rest ->
  List.length (firstn 19 bs) = 19%nat ->
  zero w
  = (parsed <- parse_motor_response_line (Some (firstn 19 bs)) ;;
     set_zero_offset_um parsed ;;
     print (ZeroSet parsed)) (set_serial rest (probed w)).
Proof.
  intros Hs Hl. apply Nat.eqb_eq in Hl.
  unfold zero. unfold bind at 1 2 3 4 5. unfold print at 1.
  unfold sleep, socket_write, emit, socket_read.
  rewrite build_probe. cbn [lift record serial]. rewrite Hs, Hl. reflexivity.
Qed.

(** A 19-byte answer with the wrong function code: the parser returns
    [None] and the branch stores it. *)
Lemma zero_bad_function (w : world) (bs : bytes) (rest : list serial_event) :
  serial w = Received bs :: rest ->
  List.length (firstn 19 bs) = 19%nat ->
  nth 1 bs 0 <> 0x64 ->
  zero w
  = (Returns tt,
     record (Print (ZeroSet None))
       (assign_zero_offset_um None
          (record (Print (UnexpectedFunction (nth 1 bs 0)))
             (set_serial rest (probed w))))).
Proof.
  intros Hs Hl Hc. rewrite (zero_full w bs rest Hs Hl).
  assert (Hn : nth 1 (firstn 19 bs) 0 = nth 1 bs 0).
  { destruct bs as [|a [|b bs]]; reflexivity. }
  unfold bind at 1. rewrite parse_bad_function by (rewrite ?Hn; assumption).
  rewrite Hn. reflexivity.
Qed.

Lemma zero_decoded (w : world) (bs : bytes) (rest : list serial_event) :
  serial w = Received bs :: rest ->
  List.length (firstn 19 bs) = 19%nat ->
  nth 1 bs 0 = 0x64 ->
  zero w
  = (Returns tt,
     record (Print (ZeroSet (Some (position (fields_of (firstn 19 bs))))))
       (assign_zero_offset_um (Some (position (fields_of (firstn 19 bs))))
          (record (Print (TelemetryLine (fields_of (firstn 19 bs))))
             (set_serial rest (probed w))))).
Proof.
  intros Hs Hl Hc. rewrite (zero_full w bs rest Hs Hl).
  assert (Hn : nth 1 (firstn 19 bs) 0 = nth 1 bs 0).
  { destruct bs as [|a [|b bs]]; reflexivity. }
  unfold bind at 1. rewrite parse_telemetry by (rewrite ?Hn; assumption).
  reflexivity.
Qed.

(** Whatever happens, the branch writes the probe and nothing else. *)
Lemma zero_writes_probe (w : world) :
  frames_written (snd (zero w)) = frames_written w ++ [probe].
Proof.
  destruct (serial w) as [|[bs|] rest] eqn:Hs.
  - now rewrite (zero_timeout w Hs).
  - destruct (Nat.eq_dec (List.length (firstn 19 bs)) 19) as [Hl | Hl].
    + destruct (Z.eq_dec (nth 1 bs 0) 0x64) as [Hc | Hc].
      * now rewrite (zero_decoded w bs rest Hs Hl Hc).
      * now rewrite (zero_bad_function w bs rest Hs Hl Hc).
    + now rewrite (zero_short w bs rest Hs Hl).
  - now rewrite (zero_interrupted w rest Hs).
Qed.

(** A time-out, a short answer and an interrupt leave [zero_offset_um] as
    it was. *)
Lemma zero_without_answer_keeps_offset (w : world) :
  (forall bs rest,
     serial w = Received bs :: rest -> List.length (firstn 19 bs) <> 19%nat) ->
  zero_offset_um (snd (zero w)) = zero_offset_um w.
Proof.
  intros Hshort. destruct (serial w) as [|[bs|] rest] eqn:Hs.
  - now rewrite (zero_timeout w Hs).
  - now rewrite (zero_short w bs rest Hs (Hshort bs rest eq_refl)).
  - now rewrite (zero_interrupted w rest Hs).
Qed.

End ZeroBranch.

(** C1. The zero branch run where a 19-byte answer carries function code
    0x65: the parser reports the unexpected function code and returns
    [None], and the branch assigns that to [zero_offset_um], which held 500;
    the next move then fails with TypeError. *)
Theorem zero_wrong_function_code_overwrites_offset :
  let response :=
    [0x01; 0x65; 0x00; 0x00; 0x01; 0xF4; 0x00; 0x00; 0x00; 0x00;
     0x00; 0x00; 0x19; 0x00; 0x00; 0x00; 0x00; 0x12; 0x34] in
  let w := World (Some 500) None [] [Received response] [] [] in
  zero_offset_um w = Some 500 /\
  fst (zero w) = Returns tt /\
  zero_offset_um (snd (zero w)) = None /\
  trace (snd (zero w))
  = [Print (ZeroSet None); Print (UnexpectedFunction 0x65); Sleep 100;
     SocketWrite [0x01; 0x64; 0x1E; 0x00; 0x00; 0x00; 0x00; 0xAB; 0xE6];
     Print Zeroing] /\
  fst (move_to 1 100 (snd (zero w))) = Raises TypeError.
Proof.
  intros response w.
  assert (Hz : zero w
               = (Returns tt,
                  World None None [] [] []
                    [Print (ZeroSet None); Print (UnexpectedFunction 0x65);
                     Sleep 100;
                     SocketWrite [0x01; 0x64; 0x1E; 0x00; 0x00; 0x00; 0x00; 0xAB; 0xE6];
                     Print Zeroing])).
  { rewrite (zero_bad_function w response [] eq_refl eq_refl)
      by (subst response; cbn [nth]; lia).
    reflexivity. }
  rewrite Hz. repeat split; reflexivity.
Qed.

(** C2. In every world the zero branch writes exactly one frame, the move
    command [build_position_command(0)], whose position field reads back as
    0: the probe commands the absolute position 0 whatever the position of
    the actuator.  With the actuator reporting 600 um, the position last
    commanded, the frame still encodes 0. *)
Theorem zero_probe_commands_position_zero (w : world) :
  let probe := [0x01; 0x64; 0x1E; 0x00; 0x00; 0x00; 0x00; 0xAB; 0xE6] in
  build_position_command 0 = Ok probe /\
  frames_written (snd (zero w)) = frames_written w ++ [probe] /\
  from_bytes (slice probe 3 7) big true = 0 /\
  (let at_600 :=
     [0x01; 0x64; 0x00; 0x00; 0x02; 0x58; 0x00; 0x00; 0x00; 0x00;
      0x00; 0x00; 0x19; 0x00; 0x00; 0x00; 0x00; 0x12; 0x34] in
   let w600 := World (Some 500) (Some 600) [] [Received at_600] [] [] in
   zero_offset_um (snd (zero w600)) = Some 600 /\
   frames_written (snd (zero w600)) = [probe] /\
   from_bytes (slice probe 3 7) big true <> 600).
Proof.
  intros probe. split; [reflexivity|].
  split; [apply zero_writes_probe|].
  split; [reflexivity|].
  intros at_600 w600.
  assert (Hz : zero_offset_um (snd (zero w600)) = Some 600).
  { rewrite (zero_decoded w600 at_600 [] eq_refl eq_refl eq_refl).
    reflexivity. }
  split; [exact Hz|]. split.
  - exact (zero_writes_probe w600).
  - discriminate.
Qed.

(* ================================================================== *)
(** ** The streaming loop *)
(* ================================================================== *)

Section Streaming.

Variable full_request : bytes.

Lemma parse_prints_once (response : option bytes) (w : world) :
  exists v m,
    parse_motor_response_line response w = (Returns v, record (Print m) w).
Proof.
  destruct response as [bs|]; [|eexists; eexists; apply parse_none].
  destruct (Nat.eq_dec (List.length bs) 19) as [Hl | Hl];
    [|eexists; eexists; apply (parse_bad_length bs w Hl)].
  destruct (Z.eq_dec (nth 1 bs 0) 0x64) as [Hc | Hc]; eexists; eexists.
  - apply (parse_telemetry bs w Hl Hc).
  - apply (parse_bad_function bs w Hl Hc).
Qed.

Lemma stream_once_interrupted (w : world) (rest : list serial_event) :
  serial w = SerialInterrupt :: rest ->
  stream_once full_request w
  = (Raises KeyboardInterrupt,
     set_serial rest (record (SocketWrite full_request) w)).
Proof.
  intros Hs. unfold stream_once, bind, socket_write, emit, socket_read.
  cbn [record serial]. rewrite Hs. reflexivity.
Qed.

(** One pass with an answer or a time-out: the frame is written once, one
    scripted read and one scripted poll are used up, the variables are
    untouched, and the loop goes on unless bytes are pending. *)
Lemma stream_once_answered (w : world) :
  hd (Received []) (serial w) <> SerialInterrupt ->
  exists w',
    stream_once full_request w
    = (Returns (if 0 <? hd 0 (in_waiting w) then Break else Continue), w') /\
    serial w' = tl (serial w) /\
    in_waiting w' = tl (in_waiting w) /\
    zero_offset_um w' = zero_offset_um w /\
    target_um w' = target_um w /\
    console w' = console w /\
    frames_written w' = frames_written w ++ [full_request].
Proof.
  intros Hi.
  assert (Hread : exists r w1,
             socket_read 19 (record (SocketWrite full_request) w)
             = (Returns r, w1) /\
             serial w1 = tl (serial w) /\ in_waiting w1 = in_waiting w /\
             zero_offset_um w1 = zero_offset_um w /\
             target_um w1 = target_um w /\ console w1 = console w /\
             frames_written w1 = frames_written w ++ [full_request]).
  { unfold socket_read. cbn [record serial].
    destruct (serial w) as [|[bs|] rest] eqn:Hs.
    - eexists; eexists. split; [reflexivity|].
      repeat split; cbn; rewrite ?Hs; reflexivity.
    - eexists; eexists. split; [reflexivity|].
      repeat split; cbn; rewrite ?Hs; reflexivity.
    - exfalso. apply Hi. reflexivity. }
  destruct Hread as (r & w1 & Er & Hs1 & Hw1 & Hz1 & Ht1 & Hc1 & Hf1).
  destruct (parse_prints_once (Some r) w1) as (v & m & Ep).
  unfold stream_once, bind, socket_write, emit. rewrite Er, Ep.
  unfold sleep, emit, socket_in_waiting. cbn [record in_waiting]. rewrite Hw1.
  destruct (in_waiting w) as [|n rest] eqn:Hw; cbn [hd tl].
  - eexists. split; [reflexivity|].
    repeat split; cbn; rewrite ?Hw1, ?Hw; assumption || reflexivity.
  - exists (set_in_waiting rest (record (Sleep 300) (record (Print m) w1))).
    split; [now destruct (0 <? n)|].
    repeat split; cbn; assumption || reflexivity.
Qed.

Lemma nth_tl {A} (l : list A) (d : A) (i : nat) : nth i (tl l) d = nth (S i) l d.
Proof. destruct l; [now destruct i | reflexivity]. Qed.

Lemma skipn_tl {A} (l : list A) (n : nat) : skipn n (tl l) = skipn (S n) l.
Proof. destruct l; [now destruct n | reflexivity]. Qed.

Lemma nth_hd_skipn {A} (n : nat) : forall (l : list A) (d : A),
  hd d (skipn n l) = nth n l d.
Proof.
  induction n as [|n IH]; intros l d; destruct l; try reflexivity. apply IH.
Qed.

Lemma hd_nth {A} (l : list A) (d : A) : hd d l = nth 0 l d.
Proof. now destruct l. Qed.

(** [n] passes without interrupt and without pending bytes. *)
Lemma streaming_unroll (n : nat) : forall w,
  (forall i, (i < n)%nat -> nth i (serial w) (Received []) <> SerialInterrupt) ->
  (forall i, (i < n)%nat -> nth i (in_waiting w) 0 <= 0) ->
  exists w',
    (forall k, streaming (n + k) full_request w = streaming k full_request w') /\
    serial w' = skipn n (serial w) /\
    in_waiting w' = skipn n (in_waiting w) /\
    zero_offset_um w' = zero_offset_um w /\
    target_um w' = target_um w /\
    console w' = console w /\
    frames_written w' = frames_written w ++ repeat full_request n.
Proof.
  induction n as [|n IH]; intros w Hser Hwait.
  - exists w. cbn [repeat skipn Nat.add]. rewrite app_nil_r. repeat split.
  - destruct (stream_once_answered w) as (w1 & E1 & Hs1 & Hw1 & Hz1 & Ht1 & Hc1 & Hf1).
    { rewrite hd_nth. apply Hser. lia. }
    assert (Hquiet : (0 <? hd 0 (in_waiting w)) = false).
    { apply Z.ltb_ge. rewrite hd_nth. apply Hwait. lia. }
    rewrite Hquiet in E1.
    destruct (IH w1) as (w' & Ek & Hs' & Hw' & Hz' & Ht' & Hc' & Hf').
    { intros i Hi. rewrite Hs1, nth_tl. apply Hser. lia. }
    { intros i Hi. rewrite Hw1, nth_tl. apply Hwait. lia. }
    exists w'. split; [|repeat split].
    + intros k. cbn [Nat.add streaming]. unfold bind. rewrite E1. apply Ek.
    + now rewrite Hs', Hs1, skipn_tl.
    + now rewrite Hw', Hw1, skipn_tl.
    + congruence.
    + congruence.
    + congruence.
    + rewrite Hf', Hf1, <- app_assoc. reflexivity.
Qed.

(** The loop only writes [full_request], and never touches the variables. *)
Lemma streaming_writes (fuel : nat) : forall w,
  exists k,
    frames_written (snd (streaming fuel full_request w))
    = frames_written w ++ repeat full_request k /\
    (0 < fuel -> 0 < k)%nat /\
    zero_offset_um (snd (streaming fuel full_request w)) = zero_offset_um w /\
    target_um (snd (streaming fuel full_request w)) = target_um w.
Proof.
  induction fuel as [|fuel IH]; intros w.
  - exists 0%nat. cbn. rewrite app_nil_r. repeat split. lia.
  - cbn [streaming]. unfold bind.
    destruct (serial w) as [|[bs|] rest] eqn:Hs.
    1, 2: destruct (stream_once_answered w)
            as (w1 & E1 & _ & _ & Hz1 & Ht1 & _ & Hf1);
          [rewrite Hs; discriminate|]; rewrite E1;
          destruct (0 <? hd 0 (in_waiting w));
          [ exists 1%nat; cbn [snd ret repeat]; repeat split; try assumption; lia
          | destruct (IH w1) as (k & Hk & _ & Hzk & Htk); exists (S k);
            rewrite Hk, Hf1, <- app_assoc; repeat split; try congruence; lia ].
    rewrite (stream_once_interrupted w rest Hs). exists 1%nat. cbn.
    repeat split. lia.
Qed.

End Streaming.

(** C3, as stated, fails: with one byte pending on the serial line after
    the first pass, the loop returns to the prompt although no interrupt is
    scripted anywhere. *)
Lemma streaming_exits_with_pending_bytes :
  let request := [0x01; 0x64; 0x1E; 0x00; 0x00; 0x02; 0x58; 0xAB; 0x7C] in
  let w := World (Some 500) (Some 600) [] [Received []] [1] [] in
  (forall ev, In ev (serial w) -> ev <> SerialInterrupt) /\
  (forall ev, In ev (console w) -> ev <> ConsoleInterrupt) /\
  streaming 2 request w
  = (Returns tt,
     World (Some 500) (Some 600) [] [] []
       [Sleep 300; Print InvalidLength; SocketWrite request]) /\
  ~ (forall (full_request : bytes) (w : world) (fuel : nat),
       (forall ev, In ev (serial w) -> ev <> SerialInterrupt) ->
       fst (streaming fuel full_request w) = Running).
Proof.
  intros request w. split; [|split; [|split]].
  - intros ev [<- | []]. discriminate.
  - intros ev [].
  - reflexivity.
  - intros Hclaim. specialize (Hclaim request w 2%nat).
    assert (Hno : forall ev, In ev (serial w) -> ev <> SerialInterrupt)
      by (intros ev [<- | []]; discriminate).
    specialize (Hclaim Hno). discriminate Hclaim.
Qed.

(** C3, amended. As long as no interrupt arrives and no byte is pending when
    the loop polls the serial line, the loop goes through another pass after
    every answer, valid or not: after [n] such passes it is still running,
    has written the same frame [n] times and has left [zero_offset_um]
    alone.  It returns to the prompt at the first poll that finds bytes
    pending, and it raises KeyboardInterrupt at the first interrupted
    read. *)
Theorem streaming_runs_while_nothing_pending
  (full_request : bytes) (n : nat) (w : world) :
  (forall i, (i < n)%nat -> nth i (serial w) (Received []) <> SerialInterrupt) ->
  (forall i, (i < n)%nat -> nth i (in_waiting w) 0 <= 0) ->
  (exists w',
     streaming n full_request w = (Running, w') /\
     frames_written w' = frames_written w ++ repeat full_request n /\
     zero_offset_um w' = zero_offset_um w) /\
  (nth n (serial w) (Received []) <> SerialInterrupt ->
   0 < nth n (in_waiting w) 0 ->
   forall fuel, (n < fuel)%nat ->
   exists w',
     streaming fuel full_request w = (Returns tt, w') /\
     frames_written w' = frames_written w ++ repeat full_request (S n)) /\
  (nth n (serial w) (Received []) = SerialInterrupt ->
   forall fuel, (n < fuel)%nat ->
   exists w',
     streaming fuel full_request w = (Raises KeyboardInterrupt, w') /\
     frames_written w' = frames_written w ++ repeat full_request (S n)).
Proof.
  intros Hser Hwait.
  destruct (streaming_unroll full_request n w Hser Hwait)
    as (wn & Ek & Hs & Hw & Hz & _ & _ & Hf).
  assert (Hlast : frames_written wn ++ [full_request]
                  = frames_written w ++ repeat full_request (S n)).
  { rewrite Hf, <- app_assoc. f_equal.
    change [full_request] with (repeat full_request 1).
    rewrite <- repeat_app. f_equal. lia. }
  split; [|split].
  - exists wn. split; [|split; assumption].
    rewrite <- (Nat.add_0_r n) at 1. now rewrite Ek.
  - intros Hsn Hwn fuel Hfuel.
    replace fuel with (n + S (fuel - S n))%nat by lia. rewrite Ek.
    destruct (stream_once_answered full_request wn)
      as (w' & E & _ & _ & _ & _ & _ & Hf').
    { now rewrite Hs, nth_hd_skipn. }
    rewrite Hw, nth_hd_skipn in E.
    apply Z.ltb_lt in Hwn. rewrite Hwn in E.
    exists w'. cbn [streaming]. unfold bind. rewrite E.
    split; [reflexivity|]. now rewrite Hf'.
  - intros Hsn fuel Hfuel.
    replace fuel with (n + S (fuel - S n))%nat by lia. rewrite Ek.
    assert (Hhd : exists rest, serial wn = SerialInterrupt :: rest).
    { rewrite Hs. rewrite <- nth_hd_skipn in Hsn.
      destruct (skipn n (serial w)) as [|ev rest]; [discriminate|].
      cbn [hd] in Hsn. subst ev. now exists rest. }
    destruct Hhd as [rest Hrest].
    eexists. cbn [streaming]. unfold bind.
    rewrite (stream_once_interrupted full_request wn rest Hrest).
    split; [reflexivity|]. cbn. exact Hlast.
Qed.

Lemma streaming_runs_while_nothing_pending_witness :
  let request := [0x01; 0x64; 0x1E; 0x00; 0x00; 0x02; 0x58; 0xAB; 0x7C] in
  let w := World (Some 500) (Some 600) []
             [Received []; Received [0x01; 0x65]; Received []] [0; 0; 3] [] in
  fst (streaming 2 request w) = Running /\
  fst (streaming 5 request w) = Returns tt /\
  frames_written (snd (streaming 5 request w)) = [request; request; request].
Proof.
  intros request w.
  assert (Hser : forall i, (i < 2)%nat ->
                   nth i (serial w) (Received []) <> SerialInterrupt).
  { intros [|[|i]] Hi; try discriminate. lia. }
  assert (Hwait : forall i, (i < 2)%nat -> nth i (in_waiting w) 0 <= 0).
  { intros [|[|i]] Hi; cbn; lia. }
  destruct (streaming_runs_while_nothing_pending request 2 w Hser Hwait)
    as [(w2 & E2 & _) [Hexit _]].
  split; [now rewrite E2|].
  destruct (Hexit ltac:(discriminate) ltac:(cbn; lia) 5%nat ltac:(lia))
    as (w5 & E5 & F5).
  rewrite E5. split; [reflexivity | exact F5].
Defined.

(* ================================================================== *)
(** ** Moves and operator input *)
(* ================================================================== *)

Section Moves.

Lemma move_to_unfold (fuel : nat) (position_um z : Z) (w : world) :
  zero_offset_um w = Some z ->
  move_to fuel position_um w
  = match build_position_command (z + position_um) with
    | Ok frame =>
        streaming fuel frame
          (record (Print (Moving position_um (z + position_um)))
                  (assign_target_um (z + position_um) w))
    | Raise e => (Raises e, assign_target_um (z + position_um) w)
    end.
Proof.
  intros Hz. unfold move_to, bind, get_zero_offset_um, set_target_um.
  rewrite Hz. cbn [add lift].
  now destruct (build_position_command (z + position_um)).
Qed.

Lemma move_to_without_offset (fuel : nat) (position_um : Z) (w : world) :
  zero_offset_um w = None ->
  move_to fuel position_um w = (Raises TypeError, w).
Proof.
  intros Hz. unfold move_to, bind, get_zero_offset_um. now rewrite Hz.
Qed.

(** Input on which [float] raises ValueError, or gives NaN, is answered
    with the invalid-input message and changes nothing else. *)
Lemma handle_input_rejected (fuel : nat) (user_input : string) (w : world) :
  user_input <> "q"%string -> user_input <> "z"%string ->
  (x <-? float user_input ;; int x) = Raise ValueError ->
  handle_input fuel user_input w
  = (Returns Continue, record (Print InvalidInput) w).
Proof.
  intros Hq Hz Hv. unfold handle_input.
  apply String.eqb_neq in Hq, Hz. rewrite Hq, Hz.
  unfold read_position, bind, try_except. rewrite Hv. reflexivity.
Qed.

(** Input that [int(float(..))] accepts starts a move to that position. *)
Lemma handle_input_number (fuel : nat) (user_input : string) (p : Z) (w : world) :
  user_input <> "q"%string -> user_input <> "z"%string ->
  (x <-? float user_input ;; int x) = Ok p ->
  handle_input fuel user_input w = (move_to fuel p ;; ret Continue) w.
Proof.
  intros Hq Hz Hv. unfold handle_input.
  apply String.eqb_neq in Hq, Hz. rewrite Hq, Hz.
  unfold read_position, try_except. unfold bind at 1 2. rewrite Hv. reflexivity.
Qed.

(** A target beyond int32 ends the move, and with it the console loop, with
    OverflowError before anything is written. *)
Lemma move_to_beyond_int32 (fuel : nat) (position_um z : Z) (w : world) :
  zero_offset_um w = Some z ->
  ~ (- 2 ^ 31 <= z + position_um < 2 ^ 31) ->
  move_to fuel position_um w
  = (Raises OverflowError, assign_target_um (z + position_um) w).
Proof.
  intros Hz Hr. rewrite (move_to_unfold fuel position_um z w Hz).
  now rewrite (build_position_command_beyond_int32 _ Hr).
Qed.

(** A move never assigns [zero_offset_um]. *)
Lemma move_to_keeps_offset (fuel : nat) (position_um : Z) (w : world) :
  zero_offset_um (snd (move_to fuel position_um w)) = zero_offset_um w.
Proof.
  destruct (zero_offset_um w) as [z|] eqn:Hz.
  - rewrite (move_to_unfold fuel position_um z w Hz).
    destruct (build_position_command (z + position_um)) as [frame|e].
    + match goal with
      | |- context [streaming fuel frame ?w0] =>
          destruct (streaming_writes frame fuel w0) as (_ & _ & _ & Hk & _)
      end.
      rewrite Hk. exact Hz.
    + exact Hz.
  - now rewrite (move_to_without_offset fuel position_um w Hz).
Qed.

(** Only the ['z'] input can change [zero_offset_um]. *)
Lemma handle_input_keeps_offset (fuel : nat) (user_input : string) (w : world) :
  user_input <> "z"%string ->
  zero_offset_um (snd (handle_input fuel user_input w)) = zero_offset_um w.
Proof.
  intros Hz.
  destruct (String.eqb_spec user_input "q") as [-> | Hq]; [reflexivity|].
  destruct (x <-? float user_input ;; int x) as [p | e] eqn:Hv.
  - rewrite (handle_input_number fuel user_input p w Hq Hz Hv).
    unfold bind. pose proof (move_to_keeps_offset fuel p w) as Hm.
    destruct (move_to fuel p w) as [[[]| |] w']; exact Hm.
  - unfold handle_input.
    apply String.eqb_neq in Hq, Hz. rewrite Hq, Hz.
    unfold read_position, try_except. unfold bind at 1 2. rewrite Hv.
    destruct e; reflexivity.
Qed.

End Moves.

(** Whenever [zero_offset_um] holds an integer [z], a move to
    [relative_um] sets the absolute target to [z + relative_um], leaves
    [zero_offset_um] alone, and every frame it writes is the move command
    for [z + relative_um], whose position field reads back as that sum; the
    target does not depend on the previous value of [target_um].  Within
    int32 the command exists and is written at least once. *)
Theorem move_to_targets_offset_plus_relative
  (fuel : nat) (relative_um z : Z) (w : world) :
  zero_offset_um w = Some z ->
  let w' := snd (move_to fuel relative_um w) in
  target_um w' = Some (z + relative_um) /\
  zero_offset_um w' = Some z /\
  (forall frame,
     build_position_command (z + relative_um) = Ok frame ->
     from_bytes (slice frame 3 7) big true = z + relative_um /\
     exists k,
       frames_written w' = frames_written w ++ repeat frame k /\
       (0 < fuel -> 0 < k)%nat) /\
  (- 2 ^ 31 <= z + relative_um < 2 ^ 31 ->
   exists frame, build_position_command (z + relative_um) = Ok frame).
Proof.
  intros Hz w'. subst w'. rewrite (move_to_unfold fuel relative_um z w Hz).
  destruct (Z_le_dec (- 2 ^ 31) (z + relative_um)) as [Hlo | Hlo];
    [destruct (Z_lt_dec (z + relative_um) (2 ^ 31)) as [Hhi | Hhi]|].
  - pose proof (build_position_command_int32 _ (conj Hlo Hhi)) as Hb.
    rewrite Hb.
    match goal with
    | |- context [streaming fuel ?f ?w0] =>
        destruct (streaming_writes f fuel w0) as (k & Hk & Hpos & Hzk & Htk)
    end.
    cbn [target_um zero_offset_um record assign_target_um] in Hzk, Htk.
    split; [exact Htk|]. split; [now rewrite Hzk|]. split.
    + intros frame Hf. injection Hf as <-. split.
      * exact (position_field_roundtrip _ (conj Hlo Hhi)).
      * exists k. now split.
    + intros _. eexists. reflexivity.
  - rewrite build_position_command_beyond_int32 by lia. cbn [snd].
    split; [reflexivity|]. split; [exact Hz|]. split.
    + intros frame Hf; discriminate Hf.
    + intros Hr. lia.
  - rewrite build_position_command_beyond_int32 by lia. cbn [snd].
    split; [reflexivity|]. split; [exact Hz|]. split.
    + intros frame Hf; discriminate Hf.
    + intros Hr. lia.
Qed.

Lemma move_to_targets_offset_plus_relative_witness :
  let at_500 :=
    [0x01; 0x64; 0x00; 0x00; 0x01; 0xF4; 0x00; 0x00; 0x00; 0x00;
     0x00; 0x00; 0x19; 0x00; 0x00; 0x00; 0x00; 0x12; 0x34] in
  let w := snd (zero (initial_world [] [Received at_500] [])) in
  zero_offset_um w = Some 500 /\
  target_um (snd (move_to 3 100 w)) = Some 600 /\
  frames_written (snd (move_to 3 100 w))
  = frames_written w
    ++ repeat [0x01; 0x64; 0x1E; 0x00; 0x00; 0x02; 0x58; 0xAB; 0x7C] 3 /\
  from_bytes (slice [0x01; 0x64; 0x1E; 0x00; 0x00; 0x02; 0x58; 0xAB; 0x7C] 3 7)
    big true = 600.
Proof.
  intros at_500 w.
  assert (Hz : zero_offset_um w = Some 500) by reflexivity.
  split; [exact Hz|].
  destruct (move_to_targets_offset_plus_relative 3 100 500 w Hz)
    as (Ht & _ & Hframes & _).
  split; [exact Ht|].
  destruct (Hframes [0x01; 0x64; 0x1E; 0x00; 0x00; 0x02; 0x58; 0xAB; 0x7C] eq_refl)
    as (Hfield & _).
  split; [reflexivity | exact Hfield].
Defined.

(** C6. A session state in which a move has no target
    [zero_offset_um + relative_um]: a zero whose 19-byte answer carries
    function code 0x65 leaves [zero_offset_um = None] (lines 98 and 99), and
    the move to 100 entered next raises TypeError at
    [zero_offset_um + position_um] (line 111), before [target_um] is assigned
    and before any frame is written; the error ends the session.  So does
    every move in every state with [zero_offset_um = None]. *)
Theorem move_without_offset_has_no_target :
  let response :=
    [0x01; 0x65; 0x00; 0x00; 0x01; 0xF4; 0x00; 0x00; 0x00; 0x00;
     0x00; 0x00; 0x19; 0x00; 0x00; 0x00; 0x00; 0x12; 0x34] in
  let probe := [0x01; 0x64; 0x1E; 0x00; 0x00; 0x00; 0x00; 0xAB; 0xE6] in
  let w := initial_world [Line "100"] [Received response] [] in
  let zeroed := snd (handle_input 3 "z" w) in
  zero_offset_um w = Some 0 /\
  fst (handle_input 3 "z" w) = Returns Continue /\
  zero_offset_um zeroed = None /\
  move_to 3 100 zeroed = (Raises TypeError, zeroed) /\
  target_um (snd (move_to 3 100 zeroed)) = None /\
  frames_written (snd (move_to 3 100 zeroed)) = [probe] /\
  session 3 (initial_world [Line "z"; Line "100"] [Received response] [])
  = (Raises TypeError,
     World None None [] [] []
       [Close; Print Prompt; Print (ZeroSet None);
        Print (UnexpectedFunction 0x65); Sleep 100; SocketWrite probe;
        Print Zeroing; Print Prompt]) /\
  (forall fuel relative_um target lines rx pending outputs,
     move_to fuel relative_um (World None target lines rx pending outputs)
     = (Raises TypeError, World None target lines rx pending outputs)).
Proof.
  intros response probe w zeroed.
  assert (Hz : handle_input 3 "z" w
               = (Returns Continue,
                  World None None [Line "100"] [] []
                    [Print (ZeroSet None); Print (UnexpectedFunction 0x65);
                     Sleep 100; SocketWrite probe; Print Zeroing]))
    by (vm_compute; reflexivity).
  subst zeroed. rewrite Hz. cbn [fst snd].
  split; [reflexivity|]. split; [reflexivity|]. split; [reflexivity|].
  split; [reflexivity|]. split; [reflexivity|]. split; [reflexivity|].
  split; [vm_compute; reflexivity|].
  intros. reflexivity.
Qed.

(** Text that is no number, such as "abc" or "nan", is rejected without any
    other effect. *)
Lemma handle_input_rejects_abc_and_nan (fuel : nat) (w : world) :
  handle_input fuel "abc" w = (Returns Continue, record (Print InvalidInput) w) /\
  handle_input fuel "nan" w = (Returns Continue, record (Print InvalidInput) w).
Proof.
  split; apply handle_input_rejected; try discriminate; reflexivity.
Qed.

(** C9. The input "inf" is no decimal number and neither token, yet it is
    not rejected: [float] accepts it, [int] raises OverflowError, the
    handler for ValueError does not catch it, and the error ends the session
    (the serial line is closed and the error propagates). *)
Theorem infinity_input_escapes_input_handler (fuel : nat) (w : world) :
  float "inf" = Ok (Infinity false) /\
  int (Infinity false) = Raise OverflowError /\
  read_position "inf" w = (Raises OverflowError, w) /\
  handle_input fuel "inf" w = (Raises OverflowError, w) /\
  (forall rest rx pending,
     session (S fuel) (initial_world (Line "inf" :: rest) rx pending)
     = (Raises OverflowError,
        World (Some 0) None rest rx pending [Close; Print Prompt])).
Proof.
  repeat split; reflexivity.
Qed.

(** A whole session: zero on an answer that reports 500 um, a move to 100 um
    from zero that is left when bytes are pending, a rejected line, and
    quit.  The move command carries 600 (00 00 02 58). *)
Example session_zero_move_quit :
  let at_500 :=
    [0x01; 0x64; 0x00; 0x00; 0x01; 0xF4; 0x00; 0x00; 0x00; 0x00;
     0x00; 0x00; 0x19; 0x00; 0x00; 0x00; 0x00; 0x12; 0x34] in
  let w := initial_world [Line "z"; Line " 100 "; Line "abc"; Line "Q"]
             [Received at_500; Received []] [0; 1] in
  fst (session 5 w) = Returns tt /\
  zero_offset_um (snd (session 5 w)) = Some 500 /\
  target_um (snd (session 5 w)) = Some 600 /\
  frames_written (snd (session 5 w))
  = [[0x01; 0x64; 0x1E; 0x00; 0x00; 0x00; 0x00; 0xAB; 0xE6];
     [0x01; 0x64; 0x1E; 0x00; 0x00; 0x02; 0x58; 0xAB; 0x7C];
     [0x01; 0x64; 0x1E; 0x00; 0x00; 0x02; 0x58; 0xAB; 0x7C]] /\
  hd Close (trace (snd (session 5 w))) = Close.
Proof. repeat split; reflexivity. Qed.

(* ================================================================== *)
(** ** More on the checksum: residue and error detection *)
(* ================================================================== *)

Section ChecksumAlgebra.

Lemma round_double (x : Z) : CRC16Engine.round (2 * x) = x.
Proof.
  unfold CRC16Engine.round. rewrite Z.odd_mul. cbn [Z.odd andb].
  rewrite Z.mul_comm. apply Z.div_mul. lia.
Qed.

Lemma rounds_shift_out (n : nat) :
  forall h, CRC16Engine.rounds n (2 ^ Z.of_nat n * h) = h.
Proof.
  induction n as [|n IH]; intro h.
  - cbn [CRC16Engine.rounds]. change (2 ^ Z.of_nat 0) with 1. lia.
  - cbn [CRC16Engine.rounds].
    replace (2 ^ Z.of_nat (S n) * h) with (2 * (2 ^ Z.of_nat n * h)).
    + rewrite round_double. apply IH.
    + rewrite Nat2Z.inj_succ, Z.pow_succ_r by lia. ring.
Qed.

(** Feeding the accumulator its own low byte shifts the high byte down. *)
Lemma crc_update_own_low_byte (c : Z) :
  0 <= c -> crc_update c (c mod 256) = c / 256.
Proof.
  intros Hc.
  assert (Hb : is_byte (c mod 256)) by (apply Z.mod_pos_bound; lia).
  rewrite (crc_update_spec c _ Hb). unfold CRC16Engine.xor_into_low_byte.
  rewrite Z.lxor_nilpotent, Z.add_0_r.
  change 256 with (2 ^ Z.of_nat 8) at 1. apply rounds_shift_out.
Qed.

(** Feeding a byte-sized accumulator itself clears it. *)
Lemma crc_update_own_value (h : Z) : crc_update h h = 0.
Proof. unfold crc_update. now rewrite Z.lxor_nilpotent. Qed.

Lemma crc_accumulate_app (data more : list Z) :
  crc_accumulate (data ++ more)
  = fold_left crc_update more (crc_accumulate data).
Proof. unfold crc_accumulate. apply fold_left_app. Qed.

Lemma crc_residue (data : list Z) :
  well_formed data ->
  crc_accumulate
    (data ++ CRC16Engine.serialize_le (CRC16Engine.compute data)) = 0.
Proof.
  intros Hd. destruct (crc_accumulate_spec data Hd) as [Heq Hw].
  rewrite crc_accumulate_app, Heq. unfold CRC16Engine.serialize_le.
  cbn [fold_left]. unfold word16 in Hw.
  rewrite crc_update_own_low_byte by lia. apply crc_update_own_value.
Qed.

(** *** The round is invertible on 16-bit values *)

Lemma bit15_set (x : Z) :
  0 <= x < 2 ^ 16 -> Z.testbit x 15 = true -> 2 ^ 15 <= x.
Proof.
  intros Hx Hb. apply Z.testbit_true in Hb; [|lia].
  destruct (Z_lt_le_dec x (2 ^ 15)) as [Hlt|]; [|assumption].
  rewrite Z.div_small in Hb by lia. discriminate.
Qed.

Lemma bit15_clear (x : Z) : 0 <= x < 2 ^ 15 -> Z.testbit x 15 = false.
Proof.
  intros Hx. destruct (Z.eq_dec x 0) as [-> | Hne]; [apply Z.bits_0|].
  apply Z.bits_above_log2; [lia|]. apply Z.log2_lt_pow2; lia.
Qed.

(** After a round the top bit tells whether the low bit was set. *)
Lemma round_top_bit (c : Z) :
  word16 c -> Z.testbit (CRC16Engine.round c) 15 = Z.odd c.
Proof.
  intros Hc. pose proof (half_word16 c Hc) as Hh.
  unfold CRC16Engine.round. destruct (Z.odd c).
  - rewrite Z.lxor_spec, bit15_clear by (change (2 ^ 15) with 32768; lia).
    reflexivity.
  - apply bit15_clear. change (2 ^ 15) with 32768. lia.
Qed.

Lemma round_injective (c d : Z) :
  word16 c -> word16 d -> CRC16Engine.round c = CRC16Engine.round d -> c = d.
Proof.
  intros Hc Hd E.
  assert (Hodd : Z.odd c = Z.odd d)
    by (rewrite <- (round_top_bit c Hc), <- (round_top_bit d Hd); now rewrite E).
  assert (Hhalf : c / 2 = d / 2).
  { unfold CRC16Engine.round in E. rewrite <- Hodd in E.
    destruct (Z.odd c); [|exact E].
    apply (f_equal (fun x => Z.lxor x 0xA001)) in E.
    now rewrite !Z.lxor_assoc, !Z.lxor_nilpotent, !Z.lxor_0_r in E. }
  rewrite (Z.div_mod c 2), (Z.div_mod d 2) by lia.
  rewrite !Zmod_odd, Hodd, Hhalf. reflexivity.
Qed.

Lemma rounds_injective (n : nat) : forall c d,
  word16 c -> word16 d ->
  CRC16Engine.rounds n c = CRC16Engine.rounds n d -> c = d.
Proof.
  induction n as [|n IH]; intros c d Hc Hd E; [exact E|].
  cbn [CRC16Engine.rounds] in E.
  apply (round_injective c d Hc Hd).
  apply IH; [apply round_word16, Hc | apply round_word16, Hd | exact E].
Qed.

Lemma step_word16 (acc b : Z) :
  word16 acc -> is_byte b ->
  word16 (CRC16Engine.rounds 8 (CRC16Engine.xor_into_low_byte acc b)).
Proof.
  intros Ha Hb. apply rounds_word16. rewrite xor_byte_low by exact Hb.
  now apply xor_byte_word16.
Qed.

(** One step of the CRC is injective in the accumulator and in the byte. *)
Lemma step_injective (acc acc' b b' : Z) :
  word16 acc -> word16 acc' -> is_byte b -> is_byte b' ->
  CRC16Engine.rounds 8 (CRC16Engine.xor_into_low_byte acc b)
  = CRC16Engine.rounds 8 (CRC16Engine.xor_into_low_byte acc' b') ->
  Z.lxor acc b = Z.lxor acc' b'.
Proof.
  intros Ha Ha' Hb Hb' E. rewrite !xor_byte_low in E by assumption.
  apply (rounds_injective 8); [now apply xor_byte_word16 .. | exact E].
Qed.

Lemma compute_from_injective (data : list Z) :
  well_formed data ->
  forall acc acc', word16 acc -> word16 acc' ->
  CRC16Engine.compute_from acc data = CRC16Engine.compute_from acc' data ->
  acc = acc'.
Proof.
  induction 1 as [|b rest Hb _ IH]; intros acc acc' Ha Ha' E; [exact E|].
  cbn [CRC16Engine.compute_from] in E.
  apply IH in E; [|now apply step_word16 ..].
  apply step_injective in E; try assumption.
  apply (f_equal (fun x => Z.lxor x b)) in E.
  now rewrite !Z.lxor_assoc, !Z.lxor_nilpotent, !Z.lxor_0_r in E.
Qed.

Lemma compute_from_app (pre suf : list Z) (acc : Z) :
  CRC16Engine.compute_from acc (pre ++ suf)
  = CRC16Engine.compute_from (CRC16Engine.compute_from acc pre) suf.
Proof.
  revert acc. induction pre as [|b pre IH]; intro acc; [reflexivity|].
  cbn [app CRC16Engine.compute_from]. apply IH.
Qed.

Lemma serialize_le_injective (c d : Z) :
  CRC16Engine.serialize_le c = CRC16Engine.serialize_le d -> c = d.
Proof.
  unfold CRC16Engine.serialize_le. intros E. injection E as Hm Hq.
  rewrite (Z.div_mod c 256), (Z.div_mod d 256) by lia. now rewrite Hm, Hq.
Qed.

End ChecksumAlgebra.

(** X1. Appending to a byte sequence the two bytes that [modbus_crc] returns
    for it gives a sequence whose own CRC is [00 00]: a receiver can check a
    frame by running [modbus_crc] over all of it. *)
Theorem modbus_crc_residue (data crc : list Z) :
  well_formed data ->
  modbus_crc data = Ok crc ->
  modbus_crc (data ++ crc) = Ok [0x00; 0x00].
Proof.
  intros Hd Hcrc. rewrite (modbus_crc_bytes data Hd) in Hcrc.
  injection Hcrc as <-. unfold modbus_crc.
  now rewrite (crc_residue data Hd).
Qed.

Lemma modbus_crc_residue_witness :
  modbus_crc ([0x01; 0x64; 0x11] ++ [0xCA; 0xCC]) = Ok [0x00; 0x00].
Proof.
  apply (modbus_crc_residue [0x01; 0x64; 0x11] [0xCA; 0xCC]).
  - repeat apply Forall_cons; try apply Forall_nil; unfold is_byte; lia.
  - reflexivity.
Defined.

(** X2. [modbus_crc] detects every corruption of a single byte: two byte
    sequences that differ in exactly one position never have the same
    CRC. *)
Theorem modbus_crc_detects_single_byte_error (pre suf : list Z) (b b' : Z) :
  well_formed pre -> well_formed suf -> is_byte b -> is_byte b' ->
  b <> b' ->
  modbus_crc (pre ++ b :: suf) <> modbus_crc (pre ++ b' :: suf).
Proof.
  intros Hpre Hsuf Hb Hb' Hne E.
  assert (Hwf : forall x, is_byte x -> well_formed (pre ++ x :: suf)).
  { intros x Hx. apply Forall_app. split; [exact Hpre|]. now constructor. }
  rewrite (modbus_crc_bytes _ (Hwf b Hb)) in E.
  rewrite (modbus_crc_bytes _ (Hwf b' Hb')) in E.
  injection E as E0 E1.
  assert (E : CRC16Engine.compute (pre ++ b :: suf)
              = CRC16Engine.compute (pre ++ b' :: suf)).
  { apply serialize_le_injective. unfold CRC16Engine.serialize_le.
    now rewrite E0, E1. }
  clear E0 E1. unfold CRC16Engine.compute in E.
  rewrite !compute_from_app in E. cbn [CRC16Engine.compute_from] in E.
  assert (Hacc : word16 (CRC16Engine.compute_from 0xFFFF pre))
    by (apply compute_from_word16; [exact Hpre | unfold word16; lia]).
  apply (compute_from_injective suf Hsuf) in E; [|now apply step_word16 ..].
  apply step_injective in E; try assumption.
  apply Hne. apply (f_equal (Z.lxor (CRC16Engine.compute_from 0xFFFF pre))) in E.
  now rewrite <- !Z.lxor_assoc, !Z.lxor_nilpotent, !Z.lxor_0_l in E.
Qed.

Lemma modbus_crc_detects_single_byte_error_witness :
  modbus_crc ([0x01; 0x64] ++ 0x1E :: [0x00; 0x00; 0x02; 0x58])
  <> modbus_crc ([0x01; 0x64] ++ 0x1F :: [0x00; 0x00; 0x02; 0x58]).
Proof.
  apply modbus_crc_detects_single_byte_error;
    try (repeat apply Forall_cons; try apply Forall_nil);
    unfold is_byte; lia.
Defined.

(** X3. Every frame that [build_position_command] returns is made of bytes
    and carries a CRC that checks: [modbus_crc] over the whole frame is
    [00 00]. *)
Theorem build_position_command_checks (position_um : Z) (frame : bytes) :
  build_position_command position_um = Ok frame ->
  well_formed frame /\ modbus_crc frame = Ok [0x00; 0x00].
Proof.
  intros Hf.
  destruct (Z_le_dec (- 2 ^ 31) position_um) as [Hlo | Hlo];
    [destruct (Z_lt_dec position_um (2 ^ 31)) as [Hhi | Hhi]|].
  - pose proof (build_position_command_int32 _ (conj Hlo Hhi)) as Hb.
    pose proof (request_bytes position_um) as Hreq.
    destruct (crc_accumulate_spec _ Hreq) as [_ Hw].
    match type of Hb with
    | _ = Ok (?request ++ ?crc) =>
        assert (Hframe : frame = request ++ crc) by congruence
    end.
    rewrite Hframe. split.
    + apply Forall_app. split; [exact Hreq | now apply serialize_le_bytes].
    + unfold modbus_crc. now rewrite (crc_residue _ Hreq).
  - rewrite build_position_command_beyond_int32 in Hf by lia. discriminate.
  - rewrite build_position_command_beyond_int32 in Hf by lia. discriminate.
Qed.

Lemma build_position_command_checks_witness :
  modbus_crc [0x01; 0x64; 0x1E; 0xFF; 0xE1; 0x7B; 0x80; 0xE8; 0x94]
  = Ok [0x00; 0x00].
Proof.
  assert (Hf : build_position_command (-2000000)
               = Ok [0x01; 0x64; 0x1E; 0xFF; 0xE1; 0x7B; 0x80; 0xE8; 0x94])
    by (vm_compute; reflexivity).
  exact (proj2 (build_position_command_checks (-2000000) _ Hf)).
Defined.

Section ChecksumLinearity.

Lemma odd_lxor (a b : Z) : Z.odd (Z.lxor a b) = xorb (Z.odd a) (Z.odd b).
Proof. now rewrite <- !Z.bit0_odd, Z.lxor_spec. Qed.

Lemma half_lxor (a b : Z) : Z.lxor a b / 2 = Z.lxor (a / 2) (b / 2).
Proof.
  change 2 with (2 ^ 1). rewrite <- !Z.shiftr_div_pow2 by lia.
  apply Z.shiftr_lxor.
Qed.

Ltac xor_bits :=
  apply Z.bits_inj'; intros ? _; rewrite ?Z.lxor_spec, ?Z.bits_0;
  repeat match goal with
         | |- context [Z.testbit ?x ?n] => destruct (Z.testbit x n)
         end; reflexivity.

(** The round is linear for XOR. *)
Lemma round_lxor (a b : Z) :
  CRC16Engine.round (Z.lxor a b)
  = Z.lxor (CRC16Engine.round a) (CRC16Engine.round b).
Proof.
  unfold CRC16Engine.round. rewrite odd_lxor, half_lxor.
  destruct (Z.odd a), (Z.odd b); cbn [xorb]; xor_bits.
Qed.

Lemma lxor_swap (x y b c : Z) :
  Z.lxor x b = Z.lxor y c -> Z.lxor x y = Z.lxor b c.
Proof.
  intros E. apply Z.bits_inj'. intros n _.
  apply (f_equal (fun z => Z.testbit z n)) in E.
  rewrite !Z.lxor_spec in *.
  destruct (Z.testbit x n), (Z.testbit y n), (Z.testbit b n), (Z.testbit c n);
    cbn in *; congruence.
Qed.

Lemma rounds_lxor (n : nat) : forall a b,
  CRC16Engine.rounds n (Z.lxor a b)
  = Z.lxor (CRC16Engine.rounds n a) (CRC16Engine.rounds n b).
Proof.
  induction n as [|n IH]; intros a b; [reflexivity|].
  cbn [CRC16Engine.rounds]. now rewrite round_lxor, IH.
Qed.

(** Eight rounds take no non-zero byte to a byte. *)
Lemma rounds_byte_high (d : Z) :
  0 < d < 256 -> 256 <= CRC16Engine.rounds 8 d.
Proof.
  intros Hd.
  assert (Hall : forallb (fun n => 256 <=? CRC16Engine.rounds 8 (Z.of_nat n))
                   (seq 1 255) = true) by (vm_compute; reflexivity).
  rewrite forallb_forall in Hall.
  specialize (Hall (Z.to_nat d)). rewrite Z2Nat.id in Hall by lia.
  apply Z.leb_le, Hall, in_seq. lia.
Qed.

Lemma lxor_bytes (a b : Z) : is_byte a -> is_byte b -> is_byte (Z.lxor a b).
Proof.
  unfold is_byte. intros Ha Hb. change 256 with (2 ^ 8).
  apply lxor_below; change (2 ^ 8) with 256; lia.
Qed.

Lemma lxor_cancel_l (a x y : Z) : Z.lxor a x = Z.lxor a y -> x = y.
Proof.
  intros E. apply (f_equal (Z.lxor a)) in E.
  now rewrite <- !Z.lxor_assoc, !Z.lxor_nilpotent, !Z.lxor_0_l in E.
Qed.

(** Two steps of the CRC from the same accumulator tell apart any two pairs
    of bytes. *)
Lemma two_steps_injective (acc b1 b2 c1 c2 : Z) :
  word16 acc -> is_byte b1 -> is_byte b2 -> is_byte c1 -> is_byte c2 ->
  crc_update (crc_update acc b1) b2 = crc_update (crc_update acc c1) c2 ->
  b1 = c1 /\ b2 = c2.
Proof.
  intros Ha Hb1 Hb2 Hc1 Hc2 E.
  rewrite !crc_update_spec in E by assumption.
  apply step_injective in E; try assumption; try now apply step_word16.
  rewrite !xor_byte_low in E by assumption.
  assert (Hd : CRC16Engine.rounds 8 (Z.lxor b1 c1) = Z.lxor b2 c2).
  { replace (Z.lxor b1 c1) with (Z.lxor (Z.lxor acc b1) (Z.lxor acc c1))
      by xor_bits.
    rewrite rounds_lxor. now apply lxor_swap. }
  pose proof (lxor_bytes b1 c1 Hb1 Hc1) as Hx.
  pose proof (lxor_bytes b2 c2 Hb2 Hc2) as Hy.
  unfold is_byte in Hx, Hy.
  destruct (Z.eq_dec (Z.lxor b1 c1) 0) as [Hz | Hnz].
  - rewrite Hz in Hd. cbn in Hd.
    split; apply Z.lxor_eq; [exact Hz | now symmetry].
  - pose proof (rounds_byte_high (Z.lxor b1 c1) ltac:(lia)). lia.
Qed.

End ChecksumLinearity.

(** X4. [modbus_crc] detects every corruption confined to two adjacent
    bytes: two byte sequences that agree outside two adjacent positions and
    differ there never have the same CRC. *)
Theorem modbus_crc_detects_two_byte_burst
  (pre suf : list Z) (b1 b2 c1 c2 : Z) :
  well_formed pre -> well_formed suf ->
  is_byte b1 -> is_byte b2 -> is_byte c1 -> is_byte c2 ->
  (b1 <> c1 \/ b2 <> c2) ->
  modbus_crc (pre ++ b1 :: b2 :: suf) <> modbus_crc (pre ++ c1 :: c2 :: suf).
Proof.
  intros Hpre Hsuf Hb1 Hb2 Hc1 Hc2 Hne E.
  assert (Hwf : forall x y, is_byte x -> is_byte y ->
                  well_formed (pre ++ x :: y :: suf)).
  { intros x y Hx Hy. apply Forall_app. split; [exact Hpre|].
    constructor; [exact Hx|]. now constructor. }
  pose proof (Hwf b1 b2 Hb1 Hb2) as Hwb. pose proof (Hwf c1 c2 Hc1 Hc2) as Hwc.
  rewrite (modbus_crc_bytes _ Hwb), (modbus_crc_bytes _ Hwc) in E.
  injection E as E0 E1.
  assert (E : CRC16Engine.compute (pre ++ b1 :: b2 :: suf)
              = CRC16Engine.compute (pre ++ c1 :: c2 :: suf)).
  { apply serialize_le_injective. unfold CRC16Engine.serialize_le.
    now rewrite E0, E1. }
  clear E0 E1. unfold CRC16Engine.compute in E.
  rewrite !compute_from_app in E. cbn [CRC16Engine.compute_from] in E.
  assert (Hacc : word16 (CRC16Engine.compute_from 0xFFFF pre))
    by (apply compute_from_word16; [exact Hpre | unfold word16; lia]).
  apply (compute_from_injective suf Hsuf) in E;
    [|apply step_word16; [now apply step_word16 | assumption] ..].
  rewrite <- !crc_update_spec in E by assumption.
  destruct (two_steps_injective _ b1 b2 c1 c2 Hacc Hb1 Hb2 Hc1 Hc2 E).
  tauto.
Qed.

Lemma modbus_crc_detects_two_byte_burst_witness :
  modbus_crc ([0x01; 0x64; 0x1E] ++ 0x00 :: 0x00 :: [0x02; 0x58])
  <> modbus_crc ([0x01; 0x64; 0x1E] ++ 0xFF :: 0xFE :: [0x02; 0x58]).
Proof.
  apply modbus_crc_detects_two_byte_burst;
    try (repeat apply Forall_cons; try apply Forall_nil);
    unfold is_byte; lia.
Defined.

(* ================================================================== *)
(** ** What the decoder looks at *)
(* ================================================================== *)

(** X5. The decoder reads bytes 1 to 16 only: two 19-byte responses that
    agree there are treated alike, whatever their address byte and their two
    CRC bytes are.  In particular the CRC of a response is never checked. *)
Theorem parse_motor_response_line_ignores_address_and_crc
  (bs bs' : bytes) (w : world) :
  List.length bs = 19%nat -> List.length bs' = 19%nat ->
  (forall i, (1 <= i <= 16)%nat -> nth i bs 0 = nth i bs' 0) ->
  parse_motor_response_line (Some bs) w
  = parse_motor_response_line (Some bs') w.
Proof.
  intros Hl Hl' Hsame.
  assert (Hfields : fields_of bs = fields_of bs').
  { rewrite (fields_of_layout bs Hl), (fields_of_layout bs' Hl'). cbv zeta.
    rewrite !Hsame by lia. reflexivity. }
  destruct (Z.eq_dec (nth 1 bs 0) 0x64) as [Hc | Hc].
  - rewrite (parse_telemetry bs w Hl Hc).
    rewrite (parse_telemetry bs' w Hl') by (rewrite <- Hsame by lia; exact Hc).
    now rewrite Hfields.
  - rewrite (parse_bad_function bs w Hl Hc).
    rewrite (parse_bad_function bs' w Hl') by (rewrite <- Hsame by lia; exact Hc).
    now rewrite Hsame by lia.
Qed.

Lemma parse_motor_response_line_ignores_address_and_crc_witness :
  parse_motor_response_line
    (Some [0x01; 0x64; 0x00; 0x00; 0x27; 0x10; 0xFF; 0xFF; 0xFF; 0x38;
           0x00; 0x0C; 0x1F; 0x5D; 0xC0; 0x00; 0x02; 0x12; 0x34])
    (initial_world [] [] [])
  = parse_motor_response_line
      (Some [0x7F; 0x64; 0x00; 0x00; 0x27; 0x10; 0xFF; 0xFF; 0xFF; 0x38;
             0x00; 0x0C; 0x1F; 0x5D; 0xC0; 0x00; 0x02; 0x00; 0x00])
      (initial_world [] [] []).
Proof.
  apply parse_motor_response_line_ignores_address_and_crc;
    [reflexivity | reflexivity |].
  intros i Hi.
  do 17 (destruct i as [|i]; [try reflexivity; lia|]). lia.
Defined.

(* ================================================================== *)
(** ** What the pieces of the loop leave alone *)
(* ================================================================== *)

Section Footprints.

(** [m] adds outputs other than [Close] and does not read the console. *)
Let tidy {A} (m : IO A) : Prop :=
  forall w,
    console (snd (m w)) = console w /\
    exists added, trace (snd (m w)) = added ++ trace w /\ ~ In Close added.

(** [m] adds outputs other than [Close]. *)
Let open_ended {A} (m : IO A) : Prop :=
  forall w, exists added, trace (snd (m w)) = added ++ trace w /\ ~ In Close added.

Lemma tidy_open_ended {A} (m : IO A) : tidy m -> open_ended m.
Proof. intros H w. apply H. Qed.

Lemma open_ended_bind {A B} (m : IO A) (k : A -> IO B) :
  open_ended m -> (forall a, open_ended (k a)) -> open_ended (bind m k).
Proof.
  intros Hm Hk w. unfold bind. destruct (Hm w) as (added & Ht & Hn).
  destruct (m w) as [[a|e|] w1]; cbn [snd] in *.
  - destruct (Hk a w1) as (added' & Ht' & Hn').
    exists (added' ++ added). rewrite Ht', Ht, app_assoc. split; [reflexivity|].
    intros Hin. apply in_app_or in Hin. tauto.
  - now exists added.
  - now exists added.
Qed.

Lemma tidy_bind {A B} (m : IO A) (k : A -> IO B) :
  tidy m -> (forall a, tidy (k a)) -> tidy (bind m k).
Proof.
  intros Hm Hk w. split.
  - unfold bind. destruct (Hm w) as [Hc _].
    destruct (m w) as [[a|e|] w1]; cbn [snd] in *; try exact Hc.
    destruct (Hk a w1) as [Hc' _]. congruence.
  - apply open_ended_bind; [now apply tidy_open_ended|].
    intros a. apply tidy_open_ended, Hk.
Qed.

Lemma tidy_ret {A} (a : A) : tidy (ret a).
Proof. intros w. split; [reflexivity|]. now exists []. Qed.

Lemma tidy_lift {A} (r : result A) : tidy (lift r).
Proof. intros w. destruct r; (split; [reflexivity|]); now exists []. Qed.

Lemma tidy_emit (o : output) : o <> Close -> tidy (emit o).
Proof.
  intros Ho w. split; [reflexivity|]. exists [o]. split; [reflexivity|].
  intros [H | []]. now apply Ho.
Qed.

Lemma tidy_print (m : message) : tidy (print m).
Proof. apply tidy_emit. discriminate. Qed.

Lemma tidy_sleep (ms : Z) : tidy (sleep ms).
Proof. apply tidy_emit. discriminate. Qed.

Lemma tidy_socket_write (frame : bytes) : tidy (socket_write frame).
Proof. apply tidy_emit. discriminate. Qed.

Lemma tidy_socket_read (size : nat) : tidy (socket_read size).
Proof.
  intros w. unfold socket_read.
  destruct (serial w) as [|[bs|] rest]; (split; [reflexivity|]); now exists [].
Qed.

Lemma tidy_socket_in_waiting : tidy socket_in_waiting.
Proof.
  intros w. unfold socket_in_waiting.
  destruct (in_waiting w); (split; [reflexivity|]); now exists [].
Qed.

Lemma tidy_get_zero_offset_um : tidy get_zero_offset_um.
Proof. intros w. split; [reflexivity|]. now exists []. Qed.

Lemma tidy_set_zero_offset_um (v : option Z) : tidy (set_zero_offset_um v).
Proof. intros w. split; [reflexivity|]. now exists []. Qed.

Lemma tidy_set_target_um (v : Z) : tidy (set_target_um v).
Proof. intros w. split; [reflexivity|]. now exists []. Qed.

Lemma tidy_try_except {A} (body handler : IO A) (exc : exn) :
  tidy body -> tidy handler -> tidy (try_except body exc handler).
Proof.
  intros Hb Hh w. unfold try_except. destruct (Hb w) as [Hc (added & Ht & Hn)].
  destruct (body w) as [[a|e|] w1]; cbn [snd] in *;
    try (split; [exact Hc | now exists added]).
  destruct (exn_eqb e exc); [|split; [exact Hc | now exists added]].
  destruct (Hh w1) as [Hc' (added' & Ht' & Hn')]. split; [congruence|].
  exists (added' ++ added). rewrite Ht', Ht, app_assoc. split; [reflexivity|].
  intros Hin. apply in_app_or in Hin. tauto.
Qed.

Ltac tidy_steps :=
  repeat (cbv beta;
          match goal with
          | |- tidy (bind _ _) => apply tidy_bind; [|intros ?]
          | |- tidy (ret _) => apply tidy_ret
          | |- tidy (lift _) => apply tidy_lift
          | |- tidy (print _) => apply tidy_print
          | |- tidy (sleep _) => apply tidy_sleep
          | |- tidy (socket_write _) => apply tidy_socket_write
          | |- tidy (socket_read _) => apply tidy_socket_read
          | |- tidy socket_in_waiting => apply tidy_socket_in_waiting
          | |- tidy get_zero_offset_um => apply tidy_get_zero_offset_um
          | |- tidy (set_zero_offset_um _) => apply tidy_set_zero_offset_um
          | |- tidy (set_target_um _) => apply tidy_set_target_um
          end).

Lemma tidy_parse (response : option bytes) :
  tidy (parse_motor_response_line response).
Proof.
  unfold parse_motor_response_line. destruct response as [bs|]; [|tidy_steps].
  destruct (negb (Nat.eqb (List.length bs) 19)); tidy_steps.
  match goal with |- context [negb ?c] => destruct (negb c) end; tidy_steps.
Qed.

Lemma tidy_zero : tidy zero.
Proof.
  unfold zero. tidy_steps.
  match goal with |- context [Nat.eqb ?a ?b] => destruct (Nat.eqb a b) end;
    tidy_steps. apply tidy_parse.
Qed.

Lemma tidy_stream_once (full_request : bytes) : tidy (stream_once full_request).
Proof.
  unfold stream_once. tidy_steps; try apply tidy_parse.
  match goal with |- context [0 <? ?n] => destruct (0 <? n) end; tidy_steps.
Qed.

Lemma tidy_streaming (fuel : nat) (full_request : bytes) :
  tidy (streaming fuel full_request).
Proof.
  induction fuel as [|fuel IH]; cbn [streaming].
  - intros w. split; [reflexivity|]. now exists [].
  - apply tidy_bind; [apply tidy_stream_once|].
    intros [|]; [exact IH | apply tidy_ret].
Qed.

Lemma tidy_move_to (fuel : nat) (position_um : Z) : tidy (move_to fuel position_um).
Proof. unfold move_to. tidy_steps. apply tidy_streaming. Qed.

Lemma tidy_read_position (user_input : string) : tidy (read_position user_input).
Proof. unfold read_position. apply tidy_try_except; tidy_steps. Qed.

Lemma tidy_handle_input (fuel : nat) (user_input : string) :
  tidy (handle_input fuel user_input).
Proof.
  unfold handle_input.
  destruct (String.eqb user_input "q"); [apply tidy_ret|].
  destruct (String.eqb user_input "z"); [tidy_steps; apply tidy_zero|].
  apply tidy_bind; [apply tidy_read_position|].
  intros [p|]; tidy_steps. apply tidy_move_to.
Qed.

(** The handling of a line leaves the rest of the console alone and never
    closes the serial line. *)
Lemma handle_input_footprint (fuel : nat) (user_input : string) (w : world) :
  console (snd (handle_input fuel user_input w)) = console w /\
  exists added,
    trace (snd (handle_input fuel user_input w)) = added ++ trace w /\
    ~ In Close added.
Proof. apply (tidy_handle_input fuel user_input w). Qed.

End Footprints.

(* ================================================================== *)
(** ** The console loop and the session *)
(* ================================================================== *)

Section ConsoleLoop.

(** The world when the prompt is shown and the line is taken. *)
Let prompted (rest : list console_event) (w : world) : world :=
  set_console rest (record (Print Prompt) w).

Lemma console_once_eof (fuel : nat) (w : world) :
  console w = [] ->
  console_once fuel w = (Raises EOFError, record (Print Prompt) w).
Proof.
  intros Hc. unfold console_once, input, bind, print, emit. cbn [record console].
  now rewrite Hc.
Qed.

Lemma console_once_interrupt (fuel : nat) (w : world) (rest : list console_event) :
  console w = ConsoleInterrupt :: rest ->
  console_once fuel w = (Raises KeyboardInterrupt, prompted rest w).
Proof.
  intros Hc. unfold console_once, input, bind, print, emit. cbn [record console].
  now rewrite Hc.
Qed.

Lemma console_once_line (fuel : nat) (w : world) (s : string)
  (rest : list console_event) :
  console w = Line s :: rest ->
  console_once fuel w = handle_input fuel (lower (strip s)) (prompted rest w).
Proof.
  intros Hc. unfold console_once, input. unfold bind at 1 2.
  unfold print, emit. cbn [record console]. now rewrite Hc.
Qed.

(** One pass of the console loop: it uses up at most one console event, adds
    no [Close], and changes [zero_offset_um] only for the line 'z'. *)
Lemma console_once_footprint (fuel : nat) (w : world) :
  (exists added,
     trace (snd (console_once fuel w)) = added ++ trace w /\ ~ In Close added) /\
  (exists used, console w = used ++ console (snd (console_once fuel w))) /\
  ((forall s, In (Line s) (console w) -> lower (strip s) <> "z"%string) ->
   zero_offset_um (snd (console_once fuel w)) = zero_offset_um w).
Proof.
  destruct (console w) as [|[s|] rest] eqn:Hc.
  - rewrite (console_once_eof fuel w Hc). cbn [snd]. split; [|split].
    + exists [Print Prompt]. split; [reflexivity|]. intros [H|[]]; discriminate.
    + exists []. cbn. now rewrite Hc.
    + reflexivity.
  - rewrite (console_once_line fuel w s rest Hc).
    destruct (handle_input_footprint fuel (lower (strip s)) (prompted rest w))
      as [Hcon (added & Ht & Hn)].
    split; [|split].
    + exists (added ++ [Print Prompt]). rewrite Ht, <- app_assoc.
      split; [reflexivity|]. intros Hin. apply in_app_or in Hin.
      destruct Hin as [Hin | [Hin | []]]; [tauto | discriminate].
    + exists [Line s]. rewrite Hcon. reflexivity.
    + intros Hz. rewrite handle_input_keeps_offset; [reflexivity|].
      apply Hz. now left.
  - rewrite (console_once_interrupt fuel w rest Hc). cbn [snd]. split; [|split].
    + exists [Print Prompt]. split; [reflexivity|]. intros [H|[]]; discriminate.
    + now exists [ConsoleInterrupt].
    + reflexivity.
Qed.

Lemma console_loop_footprint (fuel : nat) : forall w,
  (exists added,
     trace (snd (console_loop fuel w)) = added ++ trace w /\ ~ In Close added) /\
  (exists used, console w = used ++ console (snd (console_loop fuel w))) /\
  ((forall s, In (Line s) (console w) -> lower (strip s) <> "z"%string) ->
   zero_offset_um (snd (console_loop fuel w)) = zero_offset_um w).
Proof.
  induction fuel as [|fuel IH]; intros w.
  - cbn. split; [now exists [] | split; [now exists [] | reflexivity]].
  - cbn [console_loop]. unfold bind.
    destruct (console_once_footprint fuel w)
      as ((added & Ht & Hn) & (used & Hu) & Hz).
    destruct (console_once fuel w) as [[[|]|e|] w1]; cbn [snd] in *.
    + destruct (IH w1) as ((added' & Ht' & Hn') & (used' & Hu') & Hz').
      split; [|split].
      * exists (added' ++ added). rewrite Ht', Ht, app_assoc.
        split; [reflexivity|]. intros Hin. apply in_app_or in Hin. tauto.
      * exists (used ++ used'). now rewrite <- app_assoc, <- Hu'.
      * intros Hlines. rewrite Hz', Hz; [reflexivity | exact Hlines |].
        intros s Hin. apply Hlines. rewrite Hu. apply in_or_app. now right.
    + split; [now exists added | split; [now exists used | exact Hz]].
    + split; [now exists added | split; [now exists used | exact Hz]].
    + split; [now exists added | split; [now exists used | exact Hz]].
Qed.

End ConsoleLoop.

Lemma session_unfold (fuel : nat) (w : world) :
  session fuel w
  = match console_loop fuel w with
    | (Returns _, w1) => (Returns tt, record Close w1)
    | (Raises e, w1) =>
        if exn_eqb e KeyboardInterrupt
        then (Returns tt, record Close (record (Print StreamingStopped) w1))
        else (Raises e, record Close w1)
    | (Running, w1) => (Running, w1)
    end.
Proof.
  unfold session, try_finally, try_except, bind, close, print, emit.
  destruct (console_loop fuel w) as [[[]|e|] w1]; try reflexivity.
  destruct e; reflexivity.
Qed.

(** X6. Whenever the session ends, by quit, by Ctrl+C or by an error, the
    serial line is closed exactly once, as the last action.  Ctrl+C ends the
    session normally after the message that streaming has stopped; every
    other exception of the loop propagates once the line is closed. *)
Theorem session_closes_serial_line_once (fuel : nat) (w : world) :
  fst (session fuel w) <> Running ->
  (exists added,
     trace (snd (session fuel w)) = Close :: added ++ trace w /\
     ~ In Close added) /\
  fst (session fuel w) <> Raises KeyboardInterrupt /\
  (fst (console_loop fuel w) = Raises KeyboardInterrupt ->
   fst (session fuel w) = Returns tt /\
   exists added,
     trace (snd (session fuel w))
     = Close :: Print StreamingStopped :: added ++ trace w) /\
  (forall e, e <> KeyboardInterrupt ->
   fst (console_loop fuel w) = Raises e -> fst (session fuel w) = Raises e).
Proof.
  intros Hend. rewrite session_unfold in *.
  destruct (console_loop_footprint fuel w) as ((added & Ht & Hn) & _ & _).
  destruct (console_loop fuel w) as [[[]|e|] w1]; cbn [fst snd] in *.
  - split; [|split; [discriminate | split]].
    + exists added. cbn. now rewrite Ht.
    + discriminate.
    + discriminate.
  - destruct (exn_eqb e KeyboardInterrupt) eqn:Hk; cbn [fst snd].
    + assert (He : e = KeyboardInterrupt) by (destruct e; discriminate || reflexivity).
      subst e. split; [|split; [discriminate | split]].
      * exists (Print StreamingStopped :: added). cbn. rewrite Ht.
        split; [reflexivity|]. intros [H | H]; [discriminate | now apply Hn].
      * intros _. split; [reflexivity|]. exists added. cbn. now rewrite Ht.
      * intros e Hne He. injection He as <-. now contradiction Hne.
    + assert (He : e <> KeyboardInterrupt) by (intros ->; discriminate).
      split; [|split; [|split]].
      * exists added. cbn. now rewrite Ht.
      * intros H. injection H as H. now apply He.
      * intros H. injection H as H. now contradiction He.
      * intros e' _ H. exact H.
  - now contradiction Hend.
Qed.

Lemma session_closes_serial_line_once_witness :
  let w := initial_world [Line "100"; ConsoleInterrupt]
             [Received []; SerialInterrupt] [0] in
  fst (session 5 w) = Returns tt /\
  hd (Sleep 0) (trace (snd (session 5 w))) = Close /\
  hd (Sleep 0) (tl (trace (snd (session 5 w)))) = Print StreamingStopped.
Proof.
  intros w.
  assert (Hend : fst (session 5 w) <> Running) by (vm_compute; discriminate).
  destruct (session_closes_serial_line_once 5 w Hend) as (_ & _ & Hint & _).
  destruct (Hint ltac:(vm_compute; reflexivity)) as (Hr & added & Ht).
  split; [exact Hr|]. rewrite Ht. split; reflexivity.
Defined.

(** X7. [zero_offset_um] is assigned by the 'z' input only: through a whole
    session in which no line reads 'z' (after stripping and lowering), it
    keeps the value it had, whatever the moves, the answers of the device
    and the way the session ends. *)
Theorem zero_offset_changes_only_on_z (fuel : nat) (w : world) :
  (forall s, In (Line s) (console w) -> lower (strip s) <> "z"%string) ->
  zero_offset_um (snd (console_loop fuel w)) = zero_offset_um w /\
  zero_offset_um (snd (session fuel w)) = zero_offset_um w.
Proof.
  intros Hlines.
  destruct (console_loop_footprint fuel w) as (_ & _ & Hz).
  specialize (Hz Hlines). split; [exact Hz|].
  rewrite session_unfold.
  destruct (console_loop fuel w) as [[[]|e|] w1]; cbn [snd] in *;
    try exact Hz.
  destruct (exn_eqb e KeyboardInterrupt); exact Hz.
Qed.

Lemma zero_offset_changes_only_on_z_witness :
  zero_offset_um
    (snd (session 6
            (World (Some 500) None
               [Line "100"; Line "abc"; Line " -2.5 "; Line "Q"]
               [Received []; Received [0x01; 0x64]] [1; 0; 0; 2] [])))
  = Some 500.
Proof.
  refine (proj2 (zero_offset_changes_only_on_z 6 _ _)).
  intros s [H | [H | [H | [H | []]]]]; injection H as <-;
    vm_compute; discriminate.
Defined.

(* ================================================================== *)
(** ** More on zeroing and moving *)
(* ================================================================== *)

(** X8. When the read after the probe brings a 19-byte response with
    function code 0x64, the zero branch stores the position that the response
    reports, the signed big-endian value of bytes 2 to 5, in
    [zero_offset_um]; that value is within int32, [target_um] is left alone,
    and the probe is the only frame written. *)
Theorem zero_stores_reported_position
  (w : world) (bs : bytes) (rest : list serial_event) :
  serial w = Received bs :: rest ->
  List.length bs = 19%nat -> well_formed bs -> nth 1 bs 0 = 0x64 ->
  let u := nth 2 bs 0 * 2 ^ 24 + nth 3 bs 0 * 2 ^ 16
           + nth 4 bs 0 * 2 ^ 8 + nth 5 bs 0 in
  let p := if u <? 2 ^ 31 then u else u - 2 ^ 32 in
  fst (zero w) = Returns tt /\
  zero_offset_um (snd (zero w)) = Some p /\
  - 2 ^ 31 <= p < 2 ^ 31 /\
  target_um (snd (zero w)) = target_um w /\
  serial (snd (zero w)) = rest /\
  frames_written (snd (zero w))
  = frames_written w ++ [[0x01; 0x64; 0x1E; 0x00; 0x00; 0x00; 0x00; 0xAB; 0xE6]].
Proof.
  intros Hs Hl Hwf Hc u p.
  assert (Hfirst : firstn 19 bs = bs) by (apply firstn_all2; lia).
  assert (Hl' : List.length (firstn 19 bs) = 19%nat) by now rewrite Hfirst.
  rewrite (zero_decoded w bs rest Hs Hl' Hc), Hfirst.
  assert (Hp : position (fields_of bs) = p)
    by now rewrite (fields_of_layout bs Hl).
  destruct (fields_of_ranges bs Hl Hwf) as (Hr & _).
  rewrite Hp in *. cbn [fst snd]. repeat split; try reflexivity; tauto.
Qed.

Lemma zero_stores_reported_position_witness :
  zero_offset_um
    (snd (zero (World (Some 7) (Some 9) []
                  [Received [0x01; 0x64; 0xFF; 0xFF; 0xFF; 0x38; 0x00; 0x00;
                             0x00; 0x00; 0x00; 0x00; 0x19; 0x00; 0x00; 0x00;
                             0x00; 0x12; 0x34]] [] [])))
  = Some (-200).
Proof.
  set (bs := [0x01; 0x64; 0xFF; 0xFF; 0xFF; 0x38; 0x00; 0x00; 0x00; 0x00;
              0x00; 0x00; 0x19; 0x00; 0x00; 0x00; 0x00; 0x12; 0x34]).
  assert (Hwf : well_formed bs)
    by (repeat apply Forall_cons; try apply Forall_nil; unfold is_byte; lia).
  exact (proj1 (proj2 (zero_stores_reported_position
                         (World (Some 7) (Some 9) [] [Received bs] [] [])
                         bs [] eq_refl eq_refl Hwf eq_refl))).
Defined.

(** X9. When the read after the probe times out or brings fewer than 19
    bytes, the zero branch reports the failure and returns to the prompt:
    [zero_offset_um] and [target_um] keep their values, and the probe is the
    only frame written. *)
Theorem zero_without_answer_changes_nothing (w : world) :
  (serial w = [] \/
   exists bs rest,
     serial w = Received bs :: rest /\ (List.length bs < 19)%nat) ->
  fst (zero w) = Returns tt /\
  zero_offset_um (snd (zero w)) = zero_offset_um w /\
  target_um (snd (zero w)) = target_um w /\
  hd Close (trace (snd (zero w))) = Print ZeroFailed /\
  frames_written (snd (zero w))
  = frames_written w ++ [[0x01; 0x64; 0x1E; 0x00; 0x00; 0x00; 0x00; 0xAB; 0xE6]].
Proof.
  intros [Hs | (bs & rest & Hs & Hl)].
  - rewrite (zero_timeout w Hs). repeat split.
  - assert (Hl' : List.length (firstn 19 bs) <> 19%nat)
      by (rewrite length_firstn; lia).
    rewrite (zero_short w bs rest Hs Hl'). repeat split.
Qed.

Lemma zero_without_answer_changes_nothing_witness :
  zero_offset_um
    (snd (zero (World (Some 500) (Some 600) []
                  [Received [0x01; 0x64; 0x00]] [] [])))
  = Some 500.
Proof.
  refine (proj1 (proj2 (zero_without_answer_changes_nothing
                          (World (Some 500) (Some 600) []
                             [Received [0x01; 0x64; 0x00]] [] []) _))).
  right. exists [0x01; 0x64; 0x00], []. split; [reflexivity | cbn; lia].
Defined.

(** X10. Zero and move compose: after a zero on a valid response that
    reports position [p], a move to [relative_um] targets [p + relative_um],
    and when that sum is within int32 every frame written after the probe is
    the move command for it. *)
Theorem zero_then_move_targets_reported_plus_relative
  (fuel : nat) (relative_um : Z) (w : world) (bs : bytes)
  (rest : list serial_event) :
  serial w = Received bs :: rest ->
  List.length bs = 19%nat -> nth 1 bs 0 = 0x64 ->
  let u := nth 2 bs 0 * 2 ^ 24 + nth 3 bs 0 * 2 ^ 16
           + nth 4 bs 0 * 2 ^ 8 + nth 5 bs 0 in
  let p := if u <? 2 ^ 31 then u else u - 2 ^ 32 in
  let w' := snd (move_to fuel relative_um (snd (zero w))) in
  target_um w' = Some (p + relative_um) /\
  zero_offset_um w' = Some p /\
  (- 2 ^ 31 <= p + relative_um < 2 ^ 31 ->
   exists frame k,
     build_position_command (p + relative_um) = Ok frame /\
     from_bytes (slice frame 3 7) big true = p + relative_um /\
     frames_written w'
     = frames_written w
       ++ [0x01; 0x64; 0x1E; 0x00; 0x00; 0x00; 0x00; 0xAB; 0xE6]
          :: repeat frame k).
Proof.
  intros Hs Hl Hc u p w'.
  assert (Hfirst : firstn 19 bs = bs) by (apply firstn_all2; lia).
  assert (Hl' : List.length (firstn 19 bs) = 19%nat) by now rewrite Hfirst.
  assert (Hp : position (fields_of bs) = p)
    by now rewrite (fields_of_layout bs Hl).
  pose proof (zero_decoded w bs rest Hs Hl' Hc) as Hzero.
  rewrite Hfirst, Hp in Hzero.
  assert (Hz : zero_offset_um (snd (zero w)) = Some p) by now rewrite Hzero.
  pose proof (zero_writes_probe w) as Hprobe.
  subst w'. rewrite (move_to_unfold fuel relative_um p _ Hz).
  destruct (Z_le_dec (- 2 ^ 31) (p + relative_um)) as [Hlo | Hlo];
    [destruct (Z_lt_dec (p + relative_um) (2 ^ 31)) as [Hhi | Hhi]|].
  - rewrite (build_position_command_int32 _ (conj Hlo Hhi)).
    match goal with
    | |- context [streaming fuel ?f ?w0] =>
        destruct (streaming_writes f fuel w0) as (k & Hk & _ & Hzk & Htk)
    end.
    cbn [target_um zero_offset_um record assign_target_um] in Hzk, Htk.
    assert (Hfw : forall m v x,
              frames_written (record (Print m) (assign_target_um v x))
              = frames_written x) by reflexivity.
    rewrite Hfw, Hprobe in Hk.
    split; [exact Htk|]. split; [now rewrite Hzk|].
    intros _. eexists. exists k. split; [reflexivity|]. split.
    + exact (position_field_roundtrip _ (conj Hlo Hhi)).
    + rewrite Hk. symmetry. exact (app_assoc _ [_] _).
  - rewrite build_position_command_beyond_int32 by lia. cbn [snd].
    split; [reflexivity|]. split; [exact Hz|]. intros Hr. lia.
  - rewrite build_position_command_beyond_int32 by lia. cbn [snd].
    split; [reflexivity|]. split; [exact Hz|]. intros Hr. lia.
Qed.

Lemma zero_then_move_targets_reported_plus_relative_witness :
  let w := World (Some 0) None []
             [Received [0x01; 0x64; 0xFF; 0xFF; 0xFF; 0x38; 0x00; 0x00;
                        0x00; 0x00; 0x00; 0x00; 0x19; 0x00; 0x00; 0x00;
                        0x00; 0x12; 0x34]] [] [] in
  target_um (snd (move_to 2 (-100) (snd (zero w)))) = Some (-300).
Proof.
  intros w.
  exact (proj1 (zero_then_move_targets_reported_plus_relative
                  2 (-100) w _ [] eq_refl eq_refl eq_refl)).
Defined.

(** X11. While streaming, the answers of the device are only displayed:
    whatever is received, and however the loop ends, every frame it writes
    is the one request built before the loop, and [zero_offset_um],
    [target_um] and the pending console input are left as they were. *)
Theorem streaming_only_resends_the_request
  (fuel : nat) (full_request : bytes) (w : world) :
  let w' := snd (streaming fuel full_request w) in
  (exists k, frames_written w' = frames_written w ++ repeat full_request k) /\
  zero_offset_um w' = zero_offset_um w /\
  target_um w' = target_um w /\
  console w' = console w.
Proof.
  intros w'. subst w'.
  destruct (streaming_writes full_request fuel w) as (k & Hk & _ & Hz & Ht).
  destruct (tidy_streaming fuel full_request w) as [Hc _].
  split; [now exists k|]. repeat split; assumption.
Qed.

(** X12. A line that is neither 'z' nor text that [int(float(..))] turns
    into a number sends nothing to the actuator and leaves [zero_offset_um]
    and [target_um] alone; when it is not 'q' and the conversion raises
    ValueError, the loop prints the invalid-input message and prompts
    again. *)
Theorem line_without_number_sends_nothing
  (fuel : nat) (w : world) (s : string) (rest : list console_event) :
  console w = Line s :: rest ->
  lower (strip s) <> "z"%string ->
  (forall p, (x <-? float (lower (strip s)) ;; int x) <> Ok p) ->
  let w' := snd (console_once fuel w) in
  frames_written w' = frames_written w /\
  zero_offset_um w' = zero_offset_um w /\
  target_um w' = target_um w /\
  (lower (strip s) <> "q"%string ->
   (x <-? float (lower (strip s)) ;; int x) = Raise ValueError ->
   console_once fuel w
   = (Returns Continue,
      record (Print InvalidInput) (set_console rest (record (Print Prompt) w)))).
Proof.
  intros Hc Hz Hnum w'. subst w'.
  rewrite (console_once_line fuel w s rest Hc).
  set (u := lower (strip s)) in *.
  set (w1 := set_console rest (record (Print Prompt) w)).
  destruct (String.eqb_spec u "q") as [Hq | Hq].
  - rewrite Hq. cbn. repeat split. intros Hne. now contradiction Hne.
  - destruct (x <-? float u ;; int x) as [p | e] eqn:Hv;
      [now contradiction (Hnum p)|].
    destruct e;
      try (rewrite (handle_input_rejected fuel u w1 Hq Hz Hv); now repeat split).
    all: assert (He : handle_input fuel u w1 = (Raises _, w1))
      by (unfold handle_input; apply String.eqb_neq in Hq, Hz; rewrite Hq, Hz;
          unfold read_position, try_except; unfold bind at 1 2; rewrite Hv;
          reflexivity).
    all: rewrite He; repeat split.
    all: intros _ Hv'; discriminate Hv'.
Qed.

Lemma line_without_number_sends_nothing_witness :
  console_once 3 (initial_world [Line "  Go Left  "] [] [])
  = (Returns Continue,
     record (Print InvalidInput)
       (set_console [] (record (Print Prompt) (initial_world [Line "  Go Left  "] [] [])))).
Proof.
  refine (proj2 (proj2 (proj2 (line_without_number_sends_nothing
            3 (initial_world [Line "  Go Left  "] [] []) "  Go Left  " []
            eq_refl _ _))) _ _).
  - vm_compute. discriminate.
  - intros p. vm_compute. discriminate.
  - vm_compute. discriminate.
  - vm_compute. reflexivity.
Defined.

(** X13. A number that puts the absolute target beyond int32 ends the
    session: [target_um] is assigned, the construction of the command raises
    OverflowError before anything is written, and the error leaves the loop
    once the serial line is closed. *)
Theorem target_beyond_int32_ends_session
  (fuel : nat) (w : world) (s : string) (rest : list console_event)
  (z position_um : Z) :
  console w = Line s :: rest ->
  lower (strip s) <> "q"%string -> lower (strip s) <> "z"%string ->
  (x <-? float (lower (strip s)) ;; int x) = Ok position_um ->
  zero_offset_um w = Some z ->
  ~ (- 2 ^ 31 <= z + position_um < 2 ^ 31) ->
  session (S fuel) w
  = (Raises OverflowError,
     record Close
       (assign_target_um (z + position_um)
          (set_console rest (record (Print Prompt) w)))).
Proof.
  intros Hc Hq Hz Hv Hzero Hr.
  rewrite session_unfold. cbn [console_loop]. unfold bind.
  rewrite (console_once_line fuel w s rest Hc).
  rewrite (handle_input_number fuel _ position_um _ Hq Hz Hv). unfold bind.
  rewrite (move_to_beyond_int32 fuel position_um z) by assumption.
  reflexivity.
Qed.

Lemma target_beyond_int32_ends_session_witness :
  fst (session 4 (initial_world [Line "3e9"; Line "q"] [] []))
  = Raises OverflowError /\
  frames_written (snd (session 4 (initial_world [Line "3e9"; Line "q"] [] [])))
  = [].
Proof.
  pose proof (target_beyond_int32_ends_session 3
                (initial_world [Line "3e9"; Line "q"] [] []) "3e9" [Line "q"]
                0 3000000000 eq_refl) as H.
  rewrite H.
  - split; reflexivity.
  - vm_compute. discriminate.
  - vm_compute. discriminate.
  - vm_compute. reflexivity.
  - reflexivity.
  - lia.
Defined.

(* ================================================================== *)
(** ** The scripts around the console loop *)
(* ================================================================== *)

Section Scripts.

(** The enable frame: [raw + modbus_crc(raw)]. *)
Let enable_frame : bytes :=
  [0x01; 0x64; 0x10; 0x00; 0x00; 0x00; 0x01; 0x03; 0xE7].

(** The events of [enable_motion] up to the read. *)
Let enabling (p : process) : list event :=
  Device (Sleep 100) :: Device (SocketWrite enable_frame) :: events p.

Lemma enable_motion_answered (p : process) :
  hd (Received []) (serial (device p)) <> SerialInterrupt ->
  enable_motion p
  = (Returns tt,
     Process (with_trace [] (set_serial (tl (serial (device p))) (device p)))
             (PrintLine (EnableMotionResponse
                           (hex match serial (device p) with
                                | Received bs :: _ => firstn 8 bs
                                | _ => []
                                end)) :: enabling p)
             (replies p)).
Proof.
  intros Hi.
  unfold enable_motion, sbind, slift, run, print_line.
  replace (modbus_crc [0x01; 0x64; 0x10; 0x00; 0x00; 0x00; 0x01])
    with (Ok [0x03; 0xE7]) by (vm_compute; reflexivity).
  unfold socket_write, sleep, emit, socket_read.
  cbn [record with_trace device events replies trace serial map app
       zero_offset_um target_um console in_waiting].
  destruct (serial (device p)) as [|[bs|] rest] eqn:Hs; cbn [hd tl] in *.
  - unfold set_serial, with_trace. cbn. rewrite Hs. reflexivity.
  - reflexivity.
  - now contradiction Hi.
Qed.

Lemma enable_motion_interrupted (p : process) (rest : list serial_event) :
  serial (device p) = SerialInterrupt :: rest ->
  enable_motion p
  = (Raises KeyboardInterrupt,
     Process (with_trace [] (set_serial rest (device p))) (enabling p)
             (replies p)).
Proof.
  intros Hs.
  unfold enable_motion, sbind, slift, run, print_line.
  replace (modbus_crc [0x01; 0x64; 0x10; 0x00; 0x00; 0x00; 0x01])
    with (Ok [0x03; 0xE7]) by (vm_compute; reflexivity).
  unfold socket_write, sleep, emit, socket_read.
  cbn [record with_trace device events replies trace serial map app
       zero_offset_um target_um console in_waiting].
  rewrite Hs. reflexivity.
Qed.

Lemma gains_registers :
  float_to_registers kp = Ok (0x0000, 0xFA43) /\
  float_to_registers ki = Ok (0, 0) /\
  float_to_registers kd = Ok (0, 0).
Proof. repeat split; vm_compute; reflexivity. Qed.

Lemma main_unfold (connected : bool) (fuel : nat) (p : process) :
  main connected fuel p
  = let p0 := Process (with_trace [] (assign_zero_offset_um (Some 0) (device p)))
                      (events p) (replies p) in
    if connected then
      (enable_motion ;;;
       write_registers 688 (0x0000, 0xFA43) ;;;
       write_registers 690 (0, 0) ;;;
       write_registers 692 (0, 0) ;;;
       run (session fuel)) p0
    else print_line CouldNotConnect p0.
Proof.
  destruct gains_registers as (Hkp & Hki & Hkd).
  unfold main. unfold sbind at 1 2 3 4. rewrite Hkp, Hki, Hkd.
  destruct connected; reflexivity.
Qed.

(** The three gain writes, one after the other: each request goes out, and
    the first one left unanswered raises and keeps the later ones from being
    sent. *)
Lemma gains_written (k : SIO unit) (p : process) :
  (write_registers 688 (0x0000, 0xFA43) ;;;
   write_registers 690 (0, 0) ;;;
   write_registers 692 (0, 0) ;;; k) p
  = match replies p with
    | Acknowledged :: Acknowledged :: Acknowledged :: more =>
        k (Process (device p)
             (WriteRegisters 692 (0, 0) :: WriteRegisters 690 (0, 0)
              :: WriteRegisters 688 (0x0000, 0xFA43) :: events p) more)
    | Acknowledged :: Acknowledged :: more =>
        (Raises ModbusIOException,
         Process (device p)
           (WriteRegisters 692 (0, 0) :: WriteRegisters 690 (0, 0)
            :: WriteRegisters 688 (0x0000, 0xFA43) :: events p) (tl more))
    | Acknowledged :: more =>
        (Raises ModbusIOException,
         Process (device p)
           (WriteRegisters 690 (0, 0)
            :: WriteRegisters 688 (0x0000, 0xFA43) :: events p) (tl more))
    | more =>
        (Raises ModbusIOException,
         Process (device p)
           (WriteRegisters 688 (0x0000, 0xFA43) :: events p) (tl more))
    end.
Proof.
  unfold sbind, write_registers. cbv zeta. cbn [device events replies tl].
  destruct (replies p) as [|[|] [|[|] [|[|] more]]]; reflexivity.
Qed.

End Scripts.

(** X14. [enable_motion] never checks the acknowledgment: unless Ctrl+C
    arrives during its read, it returns normally whatever comes back, even
    nothing at all, after writing the one enable frame
    [01 64 10 00 00 00 01 03 E7] (whose CRC checks), waiting, and printing
    in hexadecimal exactly the bytes it received: the first eight of what
    arrived, or none after a time-out.  Nothing else changes. *)
Theorem enable_motion_accepts_any_acknowledgment (p : process) :
  hd (Received []) (serial (device p)) <> SerialInterrupt ->
  let ack :=
    match serial (device p) with
    | Received bs :: _ => firstn 8 bs
    | _ => []
    end in
  enable_motion p
  = (Returns tt,
     Process
       (World (zero_offset_um (device p)) (target_um (device p))
              (console (device p)) (tl (serial (device p)))
              (in_waiting (device p)) [])
       (PrintLine (EnableMotionResponse (hex ack))
        :: Device (Sleep 100)
        :: Device (SocketWrite [0x01; 0x64; 0x10; 0x00; 0x00; 0x00; 0x01; 0x03; 0xE7])
        :: events p)
       (replies p)) /\
  (List.length ack <= 8)%nat /\
  modbus_crc [0x01; 0x64; 0x10; 0x00; 0x00; 0x00; 0x01; 0x03; 0xE7]
  = Ok [0x00; 0x00].
Proof.
  intros Hi ack. split; [exact (enable_motion_answered p Hi)|]. split.
  - subst ack. destruct (serial (device p)) as [|[bs|] rest];
      [cbn; lia | rewrite length_firstn; lia | cbn; lia].
  - reflexivity.
Qed.

Lemma enable_motion_accepts_any_acknowledgment_witness :
  enable_motion (boot [] [Received [0x01; 0x64; 0x10; 0x00; 0x00; 0x00;
                                    0x01; 0x03; 0xE7; 0x55]] [])
  = (Returns tt,
     Process (World None None [] [] [] [])
       [PrintLine (EnableMotionResponse "0164100000000103");
        Device (Sleep 100);
        Device (SocketWrite [0x01; 0x64; 0x10; 0x00; 0x00; 0x00; 0x01; 0x03; 0xE7])]
       []) /\
  enable_motion (boot [] [] [])
  = (Returns tt,
     Process (World None None [] [] [] [])
       [PrintLine (EnableMotionResponse "");
        Device (Sleep 100);
        Device (SocketWrite [0x01; 0x64; 0x10; 0x00; 0x00; 0x00; 0x01; 0x03; 0xE7])]
       []).
Proof.
  split.
  - refine (proj1 (enable_motion_accepts_any_acknowledgment
                     (boot [] [Received [0x01; 0x64; 0x10; 0x00; 0x00; 0x00;
                                         0x01; 0x03; 0xE7; 0x55]] []) _)).
    discriminate.
  - refine (proj1 (enable_motion_accepts_any_acknowledgment (boot [] [] []) _)).
    discriminate.
Defined.

(** X15. With the port open and no interrupt during [enable_motion], the
    script enables motion and then writes the three gains, as the register
    pairs [(0x0000, 0xFA43)], [(0, 0)] and [(0, 0)] at the addresses 688, 690
    and 692.  When all three writes are answered it enters the console
    session only then, with [zero_offset_um = 0], and all that follows are
    the outputs of that session.  When one of them is not answered,
    ModbusIOException leaves the script at that write: the later gains are
    not written, no session runs and the serial line is not closed.  When the
    port cannot be opened the script prints one line and does nothing else. *)
Theorem main_sets_up_then_runs_session (fuel : nat) (p : process) :
  hd (Received []) (serial (device p)) <> SerialInterrupt ->
  let w0 := World (Some 0) (target_um (device p)) (console (device p))
              (tl (serial (device p))) (in_waiting (device p)) [] in
  let ack :=
    match serial (device p) with
    | Received bs :: _ => firstn 8 bs
    | _ => []
    end in
  let enabled :=
    [PrintLine (EnableMotionResponse (hex ack));
     Device (Sleep 100);
     Device (SocketWrite [0x01; 0x64; 0x10; 0x00; 0x00; 0x00; 0x01; 0x03; 0xE7])] in
  let gains :=
    [WriteRegisters 692 (0, 0); WriteRegisters 690 (0, 0);
     WriteRegisters 688 (0x0000, 0xFA43)] in
  (forall more,
     replies p = Acknowledged :: Acknowledged :: Acknowledged :: more ->
     main true fuel p
     = (fst (session fuel w0),
        Process (with_trace [] (snd (session fuel w0)))
          (map Device (trace (snd (session fuel w0)))
           ++ gains ++ enabled ++ events p)
          more)) /\
  (forall answered,
     (answered < 3)%nat ->
     firstn (S answered) (replies p) <> repeat Acknowledged (S answered) ->
     firstn answered (replies p) = repeat Acknowledged answered ->
     main true fuel p
     = (Raises ModbusIOException,
        Process (with_trace [] w0)
          (skipn (2 - answered) gains ++ enabled ++ events p)
          (skipn (S answered) (replies p)))) /\
  main false fuel p
  = (Returns tt,
     Process (with_trace [] (assign_zero_offset_um (Some 0) (device p)))
       (PrintLine CouldNotConnect :: events p) (replies p)).
Proof.
  intros Hi w0 ack enabled gains.
  set (p0 := Process (with_trace [] (assign_zero_offset_um (Some 0) (device p)))
                     (events p) (replies p)).
  assert (Hi0 : hd (Received []) (serial (device p0)) <> SerialInterrupt)
    by exact Hi.
  assert (Hmain :
    main true fuel p
    = (write_registers 688 (0x0000, 0xFA43) ;;;
       write_registers 690 (0, 0) ;;;
       write_registers 692 (0, 0) ;;;
       run (session fuel))
        (Process (with_trace [] w0) (enabled ++ events p) (replies p))).
  { rewrite main_unfold. cbv zeta. fold p0. unfold sbind at 1.
    rewrite (enable_motion_answered p0 Hi0). reflexivity. }
  split; [|split].
  - intros more Hr. rewrite Hmain, gains_written.
    cbn [replies device events]. rewrite Hr.
    unfold run. cbn [device events replies].
    change (with_trace [] (with_trace [] w0)) with w0.
    now destruct (session fuel w0) as [r w1].
  - intros answered Hlt Hbad Hgood. rewrite Hmain, gains_written.
    cbn [replies device events].
    destruct (replies p) as [|[|] [|[|] [|[|] more]]];
      destruct answered as [|[|[|answered]]];
      cbn [firstn repeat] in Hbad, Hgood;
      try lia; try discriminate Hgood;
      try (exfalso; apply Hbad; reflexivity);
      reflexivity.
  - now rewrite main_unfold.
Qed.

Lemma main_sets_up_then_runs_session_witness :
  main true 3
    (Process (World None None [Line "q"] [Received [0x01; 0x02; 0x03]] [] []) []
             [Acknowledged; Acknowledged; Acknowledged])
  = (Returns tt,
     Process (World (Some 0) None [] [] [] [])
       [Device Close; Device (Print Prompt);
        WriteRegisters 692 (0, 0); WriteRegisters 690 (0, 0);
        WriteRegisters 688 (0x0000, 0xFA43);
        PrintLine (EnableMotionResponse "010203");
        Device (Sleep 100);
        Device (SocketWrite [0x01; 0x64; 0x10; 0x00; 0x00; 0x00; 0x01; 0x03; 0xE7])]
       []) /\
  main true 3
    (Process (World None None [Line "q"] [Received [0x01; 0x02; 0x03]] [] []) []
             [Acknowledged; Unanswered; Acknowledged])
  = (Raises ModbusIOException,
     Process (World (Some 0) None [Line "q"] [] [] [])
       [WriteRegisters 690 (0, 0);
        WriteRegisters 688 (0x0000, 0xFA43);
        PrintLine (EnableMotionResponse "010203");
        Device (Sleep 100);
        Device (SocketWrite [0x01; 0x64; 0x10; 0x00; 0x00; 0x00; 0x01; 0x03; 0xE7])]
       [Acknowledged]).
Proof.
  split.
  - pose proof (proj1 (main_sets_up_then_runs_session 3
                  (Process (World None None [Line "q"]
                              [Received [0x01; 0x02; 0x03]] [] []) []
                           [Acknowledged; Acknowledged; Acknowledged])
                  ltac:(discriminate)) [] eq_refl) as H.
    rewrite H. vm_compute. reflexivity.
  - pose proof (proj1 (proj2 (main_sets_up_then_runs_session 3
                  (Process (World None None [Line "q"]
                              [Received [0x01; 0x02; 0x03]] [] []) []
                           [Acknowledged; Unanswered; Acknowledged])
                  ltac:(discriminate))) 1%nat
                  ltac:(lia) ltac:(discriminate) eq_refl) as H.
    rewrite H. vm_compute. reflexivity.
Defined.

(** X16. The setup is outside the [try]: when Ctrl+C arrives while
    [enable_motion] waits for the acknowledgment, KeyboardInterrupt leaves
    the script right after the enable frame, no gain is written, and the
    serial line is not closed. *)
Theorem interrupt_during_setup_skips_close
  (fuel : nat) (p : process) (rest : list serial_event) :
  serial (device p) = SerialInterrupt :: rest ->
  fst (main true fuel p) = Raises KeyboardInterrupt /\
  events (snd (main true fuel p))
  = Device (Sleep 100)
    :: Device (SocketWrite [0x01; 0x64; 0x10; 0x00; 0x00; 0x00; 0x01; 0x03; 0xE7])
    :: events p.
Proof.
  intros Hs.
  assert (Hmain :
    main true fuel p
    = (Raises KeyboardInterrupt,
       Process (with_trace [] (set_serial rest
                  (with_trace [] (assign_zero_offset_um (Some 0) (device p)))))
         (Device (Sleep 100)
          :: Device (SocketWrite [0x01; 0x64; 0x10; 0x00; 0x00; 0x00; 0x01; 0x03; 0xE7])
          :: events p)
         (replies p))).
  { rewrite main_unfold. cbv zeta. unfold sbind at 1.
    rewrite (enable_motion_interrupted _ rest) by exact Hs. reflexivity. }
  rewrite Hmain. split; reflexivity.
Qed.

Lemma interrupt_during_setup_skips_close_witness :
  ~ In (Device Close)
       (events (snd (main true 3 (boot [Line "q"] [SerialInterrupt] [])))).
Proof.
  destruct (interrupt_during_setup_skips_close 3
              (boot [Line "q"] [SerialInterrupt] []) [] eq_refl) as [_ He].
  rewrite He. intros [H | [H | []]]; discriminate.
Defined.

(** X17. test.py, once connected, always closes the serial line exactly
    once, as its last action, also when Ctrl+C arrives during the read; before
    that it announces and writes the one request [01 64 11 CA CC] and, unless
    interrupted, prints in hexadecimal exactly the bytes that came back, the
    first nineteen of what arrived or none after a time-out, without looking
    at them. *)
Theorem test_main_always_closes (p : process) :
  let requested :=
    [Device (Sleep 100);
     Device (SocketWrite [0x01; 0x64; 0x11; 0xCA; 0xCC]);
     PrintLine (Sending "016411cacc")] in
  let after := with_trace [] (set_serial (tl (serial (device p))) (device p)) in
  test_main true p
  = match serial (device p) with
    | SerialInterrupt :: _ =>
        (Raises KeyboardInterrupt,
         Process after (Device Close :: requested ++ events p) (replies p))
    | Received bs :: _ =>
        (Returns tt,
         Process after
           (Device Close :: PrintLine (ReceivedHex (hex (firstn 19 bs)))
            :: requested ++ events p)
           (replies p))
    | [] =>
        (Returns tt,
         Process after
           (Device Close :: PrintLine (ReceivedHex (hex []))
            :: requested ++ events p)
           (replies p))
    end.
Proof.
  intros requested after. subst requested after.
  unfold test_main, stry_finally.
  unfold sbind at 2. unfold slift at 1.
  replace build_request with (Ok [0x01; 0x64; 0x11; 0xCA; 0xCC])
    by (vm_compute; reflexivity).
  replace (hex [0x01; 0x64; 0x11; 0xCA; 0xCC]) with "016411cacc"%string
    by (vm_compute; reflexivity).
  unfold sbind, slift, sret, run, print_line, socket_write, sleep, close, emit,
    socket_read.
  cbn [record with_trace device events replies trace serial map app
       zero_offset_um target_um console in_waiting].
  destruct (serial (device p)) as [|[bs|] rest] eqn:Hs;
    cbn [fst snd device events replies with_trace trace map app tl hd
         zero_offset_um target_um console serial in_waiting record].
  - unfold set_serial, with_trace. cbn. rewrite Hs. reflexivity.
  - reflexivity.
  - reflexivity.
Qed.

(* ================================================================== *)
(** ** Gains as registers *)
(* ================================================================== *)

Section Binary32.

Lemma pow2_pos (a : Z) : 0 <= a -> 0 < 2 ^ a.
Proof. intros Ha. apply Z.pow_pos_nonneg; lia. Qed.

Lemma pow2_le (a b : Z) : 0 <= a <= b -> 2 ^ a <= 2 ^ b.
Proof. intros H. apply Z.pow_le_mono_r; lia. Qed.

Lemma pow2_add (a b : Z) : 0 <= a -> 0 <= b -> 2 ^ (a + b) = 2 ^ a * 2 ^ b.
Proof. intros. now apply Z.pow_add_r. Qed.

(** [floor_log2_ratio p q] is the exponent of the power of two just below
    [p / q], written without fractions. *)
Lemma floor_log2_ratio_spec (p q : Z) :
  0 < p -> 0 < q ->
  let fl := floor_log2_ratio p q in
  (0 <= fl -> q * 2 ^ fl <= p) /\
  (fl < 0 -> q <= p * 2 ^ (- fl)) /\
  (0 <= fl + 1 -> p < q * 2 ^ (fl + 1)) /\
  (fl + 1 < 0 -> p * 2 ^ (- (fl + 1)) < q).
Proof.
  intros Hp Hq. unfold floor_log2_ratio.
  pose proof (Z.log2_spec p Hp) as HP. pose proof (Z.log2_spec q Hq) as HQ.
  pose proof (Z.log2_nonneg p) as HlP. pose proof (Z.log2_nonneg q) as HlQ.
  set (lp := Z.log2 p) in *. set (lq := Z.log2 q) in *.
  rewrite <- !Z.add_1_r in HP, HQ.
  rewrite !pow2_add in HP, HQ by lia. change (2 ^ 1) with 2 in *.
  pose proof (pow2_pos lp HlP) as HPp. pose proof (pow2_pos lq HlQ) as HQp.
  destruct (Z.leb_spec 0 (lp - lq)) as [Hk | Hk].
  - assert (Hpow : 2 ^ lp = 2 ^ lq * 2 ^ (lp - lq))
      by (rewrite <- pow2_add by lia; f_equal; lia).
    pose proof (pow2_pos (lp - lq) Hk) as Hkp.
    destruct (Z.leb_spec (q * 2 ^ (lp - lq)) p) as [Hr | Hr]; cbv zeta.
    + split; [intros _; exact Hr|]. split; [lia|]. split; [|lia].
      intros _. rewrite pow2_add by lia. change (2 ^ 1) with 2. nia.
    + replace (lp - lq - 1 + 1) with (lp - lq) by lia.
      split; [|split; [|split; [intros _; exact Hr | lia]]].
      * intros Hk1.
        assert (Hs : 2 ^ (lp - lq) = 2 * 2 ^ (lp - lq - 1)).
        { replace (lp - lq) with (1 + (lp - lq - 1)) at 1 by lia.
          now rewrite pow2_add by lia. }
        pose proof (pow2_pos (lp - lq - 1) Hk1). nia.
      * intros Hk1. assert (Hk0 : lp - lq = 0) by lia.
        rewrite Hk0 in *. change (- (0 - 1)) with 1. change (2 ^ 1) with 2.
        change (2 ^ 0) with 1 in *. lia.
  - assert (Hpow : 2 ^ lq = 2 ^ lp * 2 ^ (- (lp - lq)))
      by (rewrite <- pow2_add by lia; f_equal; lia).
    pose proof (pow2_pos (- (lp - lq)) ltac:(lia)) as Hkp.
    destruct (Z.leb_spec q (p * 2 ^ (- (lp - lq)))) as [Hr | Hr]; cbv zeta.
    + split; [lia|]. split; [intros _; exact Hr|]. split.
      * intros Hk1. assert (Hk0 : lp - lq = -1) by lia.
        rewrite Hk0 in *. change (-1 + 1) with 0. change (2 ^ 0) with 1.
        change (- -1) with 1 in *. change (2 ^ 1) with 2 in *. lia.
      * intros Hk1.
        assert (Hs : 2 ^ (- (lp - lq)) = 2 * 2 ^ (- (lp - lq + 1))).
        { replace (- (lp - lq)) with (1 + - (lp - lq + 1)) at 1 by lia.
          now rewrite pow2_add by lia. }
        pose proof (pow2_pos (- (lp - lq + 1)) ltac:(lia)). nia.
    + replace (lp - lq - 1 + 1) with (lp - lq) by lia.
      split; [lia|]. split; [|split; [lia | intros _; exact Hr]].
      intros _.
      replace (- (lp - lq - 1)) with (1 + - (lp - lq)) by lia.
      rewrite pow2_add by lia. change (2 ^ 1) with 2. nia.
Qed.

Lemma round_half_even_between (num den lo hi : Z) :
  0 < den -> den * lo <= num -> num < den * hi ->
  lo <= round_half_even num den <= hi.
Proof.
  intros Hd Hlo Hhi. unfold round_half_even.
  pose proof (Z.div_mod num den ltac:(lia)) as Hdm.
  pose proof (Z.mod_pos_bound num den Hd) as Hm.
  assert (lo <= num / den < hi) by nia.
  destruct ((den <? 2 * (num mod den))
            || (den =? 2 * (num mod den)) && Z.odd (num / den)); lia.
Qed.

(** The pattern of a rounded value is below the patterns of the
    infinities. *)
Lemma nearest_binary32_pattern (p q m32 e32 : Z) :
  0 <= p -> 0 < q ->
  nearest_binary32 p q = Some (m32, e32) ->
  0 <= (e32 + 149) * 2 ^ 23 + m32 < 0x7F800000.
Proof.
  intros Hp Hq. unfold nearest_binary32.
  destruct (Z.eqb_spec p 0) as [Hp0 | Hp0].
  { intros E. injection E as <- <-. cbn. lia. }
  assert (Hpp : 0 < p) by lia.
  destruct (floor_log2_ratio_spec p q Hpp Hq) as (F0 & F1 & F2 & F3).
  set (fl := floor_log2_ratio p q) in *. cbv zeta.
  set (e := Z.max (fl - 23) (-149)).
  set (m := if 0 <=? e then round_half_even p (q * 2 ^ e)
            else round_half_even (p * 2 ^ (- e)) q).
  destruct (Z.leb_spec (2 ^ 128) (m * 2 ^ e)) as [Hov | Hov]; [discriminate|].
  intros E. injection E as <- <-.
  destruct (Z_le_dec (-149) (fl - 23)) as [Hnormal | Hsub].
  - (* normal range: the mantissa has exactly 24 bits *)
    assert (He : e = fl - 23) by (subst e; lia).
    assert (Hm : 2 ^ 23 <= m <= 2 ^ 24).
    { subst m. destruct (Z.leb_spec 0 e) as [Hpos | Hneg].
      - pose proof (pow2_pos e Hpos).
        apply round_half_even_between; [nia | |].
        + rewrite <- Z.mul_assoc, <- pow2_add by lia.
          replace (e + 23) with fl by lia. apply F0. lia.
        + rewrite <- Z.mul_assoc, <- pow2_add by lia.
          replace (e + 24) with (fl + 1) by lia. apply F2. lia.
      - pose proof (pow2_pos (- e) ltac:(lia)) as Hpe.
        apply round_half_even_between; [lia | |].
        + destruct (Z_le_dec 0 fl) as [Hfl | Hfl].
          * replace 23 with (fl + - e) by lia. rewrite pow2_add by lia.
            specialize (F0 Hfl). nia.
          * replace (- e) with (23 + - fl) by lia. rewrite pow2_add by lia.
            specialize (F1 ltac:(lia)).
            pose proof (pow2_pos 23 ltac:(lia)). nia.
        + destruct (Z_le_dec 0 (fl + 1)) as [Hfl | Hfl].
          * replace 24 with ((fl + 1) + - e) by lia. rewrite pow2_add by lia.
            specialize (F2 Hfl). nia.
          * replace (- e) with (- (fl + 1) + 24) by lia.
            rewrite pow2_add by lia. specialize (F3 ltac:(lia)).
            pose proof (pow2_pos 24 ltac:(lia)). nia. }
    assert (He104 : e <= 103 \/ (e = 104 /\ m < 2 ^ 24)).
    { destruct (Z_le_dec e 103) as [|Hbig]; [now left | right].
      destruct (Z.eq_dec e 104) as [He4 | He4].
      - split; [exact He4|]. rewrite He4 in Hov.
        assert (2 ^ 128 = 2 ^ 24 * 2 ^ 104) by reflexivity.
        pose proof (pow2_pos 104 ltac:(lia)). nia.
      - exfalso.
        assert (2 ^ 105 <= 2 ^ e) by (apply pow2_le; lia).
        assert (2 ^ 128 = 2 ^ 23 * 2 ^ 105) by reflexivity. nia. }
    clear Hov. clearbody m e.
    change (2 ^ 23) with 8388608 in *. change (2 ^ 24) with 16777216 in *.
    lia.
  - (* below the normal range: exponent field 0 *)
    assert (He : e = -149) by (subst e; lia).
    assert (Hm : 0 <= m <= 2 ^ 23).
    { subst m. rewrite He. cbn [Z.leb Z.compare Z.opp].
      apply round_half_even_between; [lia | lia |].
      specialize (F3 ltac:(lia)).
      assert (2 ^ 126 <= 2 ^ (- (fl + 1))) by (apply pow2_le; lia).
      assert (2 ^ 149 = 2 ^ 126 * 2 ^ 23) by reflexivity.
      pose proof (pow2_pos 126 ltac:(lia)). nia. }
    clear Hov. clearbody m e. rewrite He.
    change (2 ^ 23) with 8388608 in *. lia.
Qed.

End Binary32.

(** X18. For every finite float, [float_to_registers] either raises
    OverflowError, when the value rounds beyond the binary32 range, or
    returns two 16-bit register values: the four little-endian bytes of the
    IEEE-754 single pattern read as two big-endian words, so the first
    register holds the two low bytes of the pattern, swapped, and the second
    the two high bytes, swapped; the sign of the float is the top bit of the
    pattern. *)
Theorem float_to_registers_layout (negative : bool) (m e : Z) :
  0 <= m ->
  (nearest_binary32 (m * 2 ^ Z.max e 0) (2 ^ Z.max (- e) 0) = None /\
   float_to_registers (Finite negative m e) = Raise OverflowError) \/
  (exists bits,
     binary32_bits (Finite negative m e) = Ok bits /\
     0 <= bits < 2 ^ 32 /\
     (2 ^ 31 <= bits <-> negative = true) /\
     float_to_registers (Finite negative m e)
     = Ok ((bits mod 256) * 256 + (bits / 2 ^ 8) mod 256,
           ((bits / 2 ^ 16) mod 256) * 256 + bits / 2 ^ 24) /\
     0 <= (bits mod 256) * 256 + (bits / 2 ^ 8) mod 256 < 65536 /\
     0 <= ((bits / 2 ^ 16) mod 256) * 256 + bits / 2 ^ 24 < 65536).
Proof.
  intros Hm.
  assert (Hp : 0 <= m * 2 ^ Z.max e 0)
    by (pose proof (pow2_pos (Z.max e 0) ltac:(lia)); nia).
  assert (Hq : 0 < 2 ^ Z.max (- e) 0) by (apply pow2_pos; lia).
  unfold float_to_registers, pack_float_le, binary32_bits.
  destruct (nearest_binary32 (m * 2 ^ Z.max e 0) (2 ^ Z.max (- e) 0))
    as [[m32 e32]|] eqn:Hn; [right | left; now split].
  pose proof (nearest_binary32_pattern _ _ m32 e32 Hp Hq Hn) as Hpat.
  set (bits := sign_bit negative + (e32 + 149) * 2 ^ 23 + m32).
  assert (Hbits : 0 <= bits < 2 ^ 32).
  { subst bits. unfold sign_bit. destruct negative; lia. }
  assert (Hsign : 2 ^ 31 <= bits <-> negative = true).
  { subst bits. unfold sign_bit. destruct negative; split; intros; try lia;
      try reflexivity; try discriminate. }
  exists bits. split; [reflexivity|]. split; [exact Hbits|].
  split; [exact Hsign|].
  assert (Hb3 : 0 <= bits / 2 ^ 24 < 256)
    by (split; [apply Z.div_pos | apply Z.div_lt_upper_bound]; lia).
  pose proof (Z.mod_pos_bound bits 256 ltac:(lia)).
  pose proof (Z.mod_pos_bound (bits / 2 ^ 8) 256 ltac:(lia)).
  pose proof (Z.mod_pos_bound (bits / 2 ^ 16) 256 ltac:(lia)).
  split; [|lia].
  cbn [rbind]. unfold to_bytes.
  change (2 ^ (8 * Z.of_nat 4)) with (2 ^ 32).
  destruct (Z.ltb_spec bits 0); [lia|].
  destruct (Z.ltb_spec bits (2 ^ 32)); [|lia].
  cbn [rbind arrange le_digits]. unfold unpack_HH_be, slice.
  cbn [firstn skipn]. rewrite !from_bytes_be2_unsigned.
  rewrite !Z.div_div by lia.
  change (256 * 256 * 256) with (2 ^ 24). change (256 * 256) with (2 ^ 16).
  change 256 with (2 ^ 8) at 3.
  rewrite (Z.mod_small (bits / 2 ^ 24)) by lia.
  reflexivity.
Qed.

Lemma float_to_registers_layout_witness :
  float_to_registers kp = Ok (0x0000, 0xFA43) /\
  float_to_registers (Finite true 5 (-1)) = Ok (0x0000, 0x20C0) /\
  float_to_registers (Finite false 1 128) = Raise OverflowError.
Proof.
  split; [|split].
  - destruct (float_to_registers_layout false 500 0 ltac:(lia))
      as [[Hn _] | (bits & Hb & _ & _ & Hr & _)];
      [vm_compute in Hn; discriminate Hn|].
    vm_compute in Hb. injection Hb as <-. unfold kp. rewrite Hr.
    vm_compute. reflexivity.
  - destruct (float_to_registers_layout true 5 (-1) ltac:(lia))
      as [[Hn _] | (bits & Hb & _ & _ & Hr & _)];
      [vm_compute in Hn; discriminate Hn|].
    vm_compute in Hb. injection Hb as <-. rewrite Hr. vm_compute. reflexivity.
  - destruct (float_to_registers_layout false 1 128 ltac:(lia))
      as [[_ Hr] | (bits & Hb & _)];
      [exact Hr | vm_compute in Hb; discriminate Hb].
Defined.
